(** * Quant BOBE: dashboard data layer and sizing/cost contracts

    The TypeScript data layer under [web/lib] and [web/app/api] is embedded
    function by function.  JavaScript strings are lists of code units
    (restricted to the range of [ascii]); a rejected promise or a thrown
    exception is the [Throw] case of a completion.

    The Python engine (RegimeDetector, PortfolioSizer, CostModel,
    BacktestEngine) is not part of the source tree: its components are
    modelled from the specification, over the rationals where the formulas
    are rational and over the reals where they need a logarithm or a square
    root. *)

From Stdlib Require Import Ascii String List Bool Arith ZArith QArith Qabs Qminmax Lia.
From Stdlib Require Import Reals Lra Lqa.
From stdpp Require Import gmap strings list.

Set Default Proof Using "Type*".

(** ** JavaScript strings *)

Module JsString.

Abbreviation str := (list ascii).

Definition lit (s : string) : str := list_ascii_of_string s.
Arguments lit : simpl never.

Definition LF : ascii := ascii_of_nat 10.
Definition CR : ascii := ascii_of_nat 13.
Definition comma : ascii := ascii_of_nat 44.

Definition ascii_eqb (a b : ascii) : bool := Ascii.eqb a b.

(** WhiteSpace and LineTerminator code units below 256: TAB, LF, VT, FF, CR,
    SP and NBSP.  [String.prototype.trim] and the numeric conversion of a
    string strip exactly this set. *)
Definition is_ws (c : ascii) : bool :=
  match nat_of_ascii c with
  | 9 | 10 | 11 | 12 | 13 | 32 | 160 => true
  | _ => false
  end.

Definition is_eol_char (c : ascii) : bool := ascii_eqb c LF || ascii_eqb c CR.

Fixpoint trimStart (s : str) : str :=
  match s with
  | [] => []
  | c :: r => if is_ws c then trimStart r else s
  end.

Fixpoint trimEnd (s : str) : str :=
  match s with
  | [] => []
  | c :: r => if is_ws c && forallb is_ws r then [] else c :: trimEnd r
  end.

(** [s.trim()] *)
Definition trim (s : str) : str := trimEnd (trimStart s).

Definition cons_head (c : ascii) (fields : list str) : list str :=
  match fields with
  | [] => [[c]]
  | f :: fs => (c :: f) :: fs
  end.

(** [s.split(sep)] for a one-character separator: never the empty list. *)
Fixpoint split_on (sep : ascii) (s : str) : list str :=
  match s with
  | [] => [[]]
  | c :: r => if ascii_eqb c sep then [] :: split_on sep r
              else cons_head c (split_on sep r)
  end.

(** [s.split(/\r?\n/)]: a separator is LF, or CR immediately followed by LF. *)
Fixpoint split_lines (s : str) : list str :=
  match s with
  | [] => [[]]
  | c :: r =>
      if ascii_eqb c LF then [] :: split_lines r
      else match r with
           | c' :: r' =>
               if ascii_eqb c CR && ascii_eqb c' LF then [] :: split_lines r'
               else cons_head c (split_lines r)
           | [] => [[c]]
           end
  end.

(** Apply [f] to the last element of a list. *)
Fixpoint map_last {A} (f : A -> A) (l : list A) : list A :=
  match l with
  | [] => []
  | [x] => [f x]
  | x :: r => x :: map_last f r
  end.

Definition no_char (sep : ascii) (s : str) : bool :=
  forallb (fun c => negb (ascii_eqb c sep)) s.

(** A string without line-break characters: one line. *)
Definition no_eol (s : str) : bool := forallb (fun c => negb (is_eol_char c)) s.

(** Lines joined by a line break. *)
Definition join_lines (eol : str) (lines : list str) : str :=
  match lines with
  | [] => []
  | h :: rest => h ++ concat (map (fun r => eol ++ r) rest)
  end.

End JsString.

(** ** Completions: a value, or a thrown exception / rejected promise *)

Module Js.

Inductive Completion (E A : Type) : Type :=
| Return (a : A)
| Throw (e : E).
Arguments Return {E A} a.
Arguments Throw {E A} e.

Definition bind {E A B} (c : Completion E A) (k : A -> Completion E B)
  : Completion E B :=
  match c with
  | Return a => k a
  | Throw e => Throw e
  end.

(** [try { body } catch (error) { handler }] and [promise.catch(handler)] *)
Definition try_catch {E A} (body : Completion E A) (handler : E -> Completion E A)
  : Completion E A :=
  match body with
  | Return a => Return a
  | Throw e => handler e
  end.

Definition fmap {E A B} (f : A -> B) (c : Completion E A) : Completion E B :=
  bind c (fun a => Return (f a)).

(** The values of a list of completions, or the first exception. *)
Fixpoint sequence {E A} (ps : list (Completion E A)) : Completion E (list A) :=
  match ps with
  | [] => Return []
  | p :: rest => bind p (fun a => bind (sequence rest) (fun r => Return (a :: r)))
  end.

(** [Promise.all] over an array: the first rejection rejects the whole. *)
Abbreviation promise_all := sequence.

(** [a ?? b]: [b] when [a] is undefined or null. *)
Definition nullish {A} (a : option A) (b : A) : A :=
  match a with Some x => x | None => b end.

(** [!s] for a string that may be undefined or null. *)
Definition falsy (s : option (list ascii)) : bool :=
  match s with
  | None | Some [] => true
  | Some (_ :: _) => false
  end.

(** [a || b] on such a string. *)
Definition or_else (a : option (list ascii)) (b : list ascii) : list ascii :=
  match a with
  | None | Some [] => b
  | Some (c :: r) => c :: r
  end.

End Js.

Notation "'let*' x := c 'in' k" := (Js.bind c (fun x => k))
  (at level 10, x name, c at level 100, k at level 200).

(** ** web/lib/repo.ts and web/lib/server/live-pnl.ts *)

Module Csv.
Import JsString Js.

Section Readers.

(** [E]: thrown values.  [num]: JavaScript numbers.  [Number] applied to a
    string strips white space and reads the remaining numeric literal
    ([parse_numeric], which yields 0 on the empty string and NaN on
    anything that is no literal); [Number(undefined)] is [NaN]. *)
Variable E : Type.
Variable num : Type.
Variable NaN : num.
Variable parse_numeric : str -> num.
Variable resolveRepoPath : str -> str.

(** A property read that may yield [undefined] ([None]). *)
Definition Number (v : option str) : num :=
  match v with
  | None => NaN
  | Some s => parse_numeric (trim s)
  end.

(** [headers.forEach((key, idx) => { record[key] = values[idx] ?? ""; })] *)
Fixpoint forEach_assign (headers : list str) (idx : nat) (values : list str)
    (record : gmap str str) : gmap str str :=
  match headers with
  | [] => record
  | key :: rest =>
      forEach_assign rest (S idx) values
        (<[key := nullish (values !! idx) []]> record)
  end.

Definition row_record (headers : list str) (row : str) : gmap str str :=
  forEach_assign headers 0 (split_on comma row) ∅.

(** [const [headerLine, ...rows] = lines]: the first element may be
    [undefined] when the array is empty. *)
Definition destructure (lines : list str) : option str * list str :=
  match lines with
  | [] => (None, [])
  | h :: rows => (Some h, rows)
  end.

Record TradeLogRow := {
  date : option str;
  symbol : option str;
  quantity : num;
  price : num;
  notional : num;
  sleeve : option str
}.

Definition trade_of_record (record : gmap str str) : TradeLogRow :=
  {| date := record !! lit "date";
     symbol := record !! lit "symbol";
     quantity := Number (record !! lit "quantity");
     price := Number (record !! lit "price");
     notional := Number (record !! lit "notional");
     sleeve := record !! lit "sleeve" |}.

(** [readTradesCsv]; [type_error] is what [headerLine.split] would throw on
    an undefined header line. *)
Definition readTradesCsv (type_error : E) (readFile : str -> Completion E str)
    (file : str) : Completion E (list TradeLogRow) :=
  try_catch
    (let* raw := readFile (resolveRepoPath file) in
     let '(headerLine, rows) := destructure (split_lines (trim raw)) in
     let* headers := match headerLine with
                     | Some h => Return (split_on comma h)
                     | None => Throw type_error
                     end in
     Return (map (fun row => trade_of_record (row_record headers row)) rows))
    (fun _ => Return []).

Record LivePnlRow := {
  timestamp : option str;
  equity : num;
  cash : num
}.

Definition pnl_of_record (record : gmap str str) : LivePnlRow :=
  {| timestamp := record !! lit "timestamp";
     equity := Number (Some (nullish (record !! lit "equity") (lit "0")));
     cash := Number (Some (nullish (record !! lit "cash") (lit "0"))) |}.

Definition readLivePnl (readFile : str -> Completion E str) (file : str)
    : Completion E (list LivePnlRow) :=
  try_catch
    (let* raw := readFile (resolveRepoPath file) in
     let '(headerLine, rows) := destructure (split_lines (trim raw)) in
     if falsy headerLine then Return []
     else
       let headers := split_on comma (nullish headerLine []) in
       Return (map (fun row => pnl_of_record (row_record headers row)) rows))
    (fun _ => Return []).

(** CSV texts: a header line, then the rows, each introduced by a line
    break, then trailing white space (usually one final line break). *)
Definition csv_text (eol header : str) (rows : list str) (tail : str) : str :=
  join_lines eol (header :: rows) ++ tail.

Definition is_line_break (eol : str) : Prop :=
  eol = [LF] \/ eol = [CR; LF].

(** A data row is one line with at least [n] comma-separated fields. *)
Definition data_row (n : nat) (r : str) : Prop :=
  no_eol r = true /\ n <= length (split_on comma r).

(** The [i]-th comma-separated field of a row, empty when there is none. *)
Definition field (i : nat) (row : str) : str :=
  nullish (split_on comma row !! i) [].

(** The position of the last header equal to [key], counting from [idx]. *)
Fixpoint column_from (headers : list str) (idx : nat) (key : str) : option nat :=
  match headers with
  | [] => None
  | h :: rest =>
      match column_from rest (S idx) key with
      | Some i => Some i
      | None => if bool_decide (h = key) then Some idx else None
      end
  end.

(** The cell of a row under the header [key]: undefined when no header
    carries that name. *)
Definition cell (headers : list str) (row key : str) : option str :=
  match column_from headers 0 key with
  | Some i => Some (field i row)
  | None => None
  end.

(** A trade record read column by column. *)
Definition trade_row (headers : list str) (row : str) : TradeLogRow :=
  {| date := cell headers row (lit "date");
     symbol := cell headers row (lit "symbol");
     quantity := Number (cell headers row (lit "quantity"));
     price := Number (cell headers row (lit "price"));
     notional := Number (cell headers row (lit "notional"));
     sleeve := cell headers row (lit "sleeve") |}.

(** A live P&L record read by position. *)
Definition pnl_row (row : str) : LivePnlRow :=
  {| timestamp := Some (field 0 row);
     equity := Number (Some (field 1 row));
     cash := Number (Some (field 2 row)) |}.

Definition live_pnl_header : str := lit "timestamp,equity,cash".

End Readers.

(** A trade log of two fills. *)
Definition sample_trades : str :=
  lit "date,symbol,quantity,price,notional,sleeve" ++ [LF]
  ++ lit "2024-03-01,AAPL,10,180.5,1805,C_xsec_qv" ++ [LF]
  ++ lit "2024-03-01,MSFT,-4,410,-1640,D_intraday_rev" ++ [LF].

(** Two rows as the live loop appends them; the last one ends in a blank. *)
Definition sample_rows : list str :=
  [ lit "2024-03-01T14:30:00,100250.5,40000";
    lit "2024-03-01T14:31:00,100310.25,39500 " ].

End Csv.

(** ** web/lib/server/yahoo.ts and web/app/api/market/watchlist/route.ts *)

Module Watchlist.
Import JsString Js.

Section Route.

Variable E : Type.
Variable Quote : Type.
(** [yahooFinance.quote] *)
Variable yahoo_quote : str -> Completion E Quote.

Inductive JsQuote :=
| QuoteUndefined
| QuoteNull
| QuoteValue (q : Quote).

Definition fetchQuote (symbol : str) : Completion E JsQuote :=
  try_catch (fmap QuoteValue (yahoo_quote symbol)) (fun _ => Return QuoteNull).

(** [searchParams.get(name)]: the first value under [name], else null. *)
Fixpoint get (searchParams : list (str * str)) (name : str) : option str :=
  match searchParams with
  | [] => None
  | (k, v) :: rest => if bool_decide (k = name) then Some v else get rest name
  end.

Inductive Body :=
| ErrorBody (error : str)
| QuotesBody (payload : list (str * JsQuote)).

Record Response := { status : nat; body : Body }.

(** [Boolean(s)] on a string *)
Definition truthy (s : str) : bool :=
  match s with [] => false | _ :: _ => true end.

Definition parse_symbols (symbolsParam : str) : list str :=
  List.filter truthy (map trim (split_on comma symbolsParam)).

Definition GET (searchParams : list (str * str)) : Completion E Response :=
  let symbolsParam := get searchParams (lit "symbols") in
  if falsy symbolsParam then
    Return {| status := 400; body := ErrorBody (lit "symbols is required") |}
  else
    let symbols := parse_symbols (nullish symbolsParam []) in
    let* quotes := promise_all (map fetchQuote symbols) in
    let payload :=
      imap (fun idx symbol => (symbol, nullish (quotes !! idx) QuoteUndefined))
           symbols in
    Return {| status := 200; body := QuotesBody payload |}.

Definition bad_request : Response :=
  {| status := 400; body := ErrorBody (lit "symbols is required") |}.

(** The quote paired with a symbol: the fetched value, null on failure. *)
Definition quote_or_null (symbol : str) : JsQuote :=
  match yahoo_quote symbol with
  | Return q => QuoteValue q
  | Throw _ => QuoteNull
  end.

End Route.

End Watchlist.

(** ** web/lib/server/alpaca.ts *)

Module Alpaca.
Import JsString Js.

Section Snapshot.

Variable E : Type.
Variables Account Position Order Clock : Type.

Record AlpacaConfig := {
  keyId : str;
  secretKey : str;
  paper : bool;
  baseUrl : str
}.

Record OrderQuery := {
  query_status : str;
  direction : str;
  nested : bool;
  limit : nat
}.

(** The four calls of the broker SDK used by the snapshot. *)
Record Sdk := {
  getAccount : AlpacaConfig -> Completion E Account;
  getPositions : AlpacaConfig -> Completion E (list Position);
  getOrders : AlpacaConfig -> OrderQuery -> Completion E (list Order);
  getClock : AlpacaConfig -> Completion E Clock
}.

Fixpoint starts_with (s pre : str) : bool :=
  match pre, s with
  | [], _ => true
  | _ :: _, [] => false
  | p :: pre', c :: s' => ascii_eqb c p && starts_with s' pre'
  end.

(** [s.includes(sub)] *)
Fixpoint includes (s sub : str) : bool :=
  starts_with s sub ||
  match s with
  | [] => false
  | _ :: s' => includes s' sub
  end.

Definition getAlpacaClient (env : gmap str str) : option AlpacaConfig :=
  let keyId := env !! lit "ALPACA_API_KEY_ID" in
  let secretKey := env !! lit "ALPACA_API_SECRET_KEY" in
  if falsy keyId || falsy secretKey then None
  else
    let baseUrl := or_else (env !! lit "ALPACA_BASE_URL")
                           (lit "https://paper-api.alpaca.markets") in
    Some {| keyId := nullish keyId [];
            secretKey := nullish secretKey [];
            paper := includes baseUrl (lit "paper");
            baseUrl := baseUrl |}.

Record AlpacaSnapshot := {
  account : option Account;
  positions : list Position;
  openOrders : list Order;
  clock : option Clock
}.

Definition empty_snapshot : AlpacaSnapshot :=
  {| account := None; positions := []; openOrders := []; clock := None |}.

Definition open_orders_query : OrderQuery :=
  {| query_status := lit "open"; direction := lit "desc";
     nested := true; limit := 50 |}.

(** [Promise.all([a, b, c, d])] *)
Definition promise_all4 {A B C D} (a : Completion E A) (b : Completion E B)
    (c : Completion E C) (d : Completion E D) : Completion E (A * B * C * D) :=
  let* x := a in let* y := b in let* z := c in let* w := d in
  Return (x, y, z, w).

Definition fetchAlpacaSnapshot (env : gmap str str) (sdk : Sdk)
    : Completion E AlpacaSnapshot :=
  match getAlpacaClient env with
  | None => Return empty_snapshot
  | Some client =>
      let* all :=
        promise_all4
          (try_catch (fmap Some (getAccount sdk client)) (fun _ => Return None))
          (try_catch (getPositions sdk client) (fun _ => Return []))
          (try_catch (getOrders sdk client open_orders_query)
                     (fun _ => Return []))
          (try_catch (fmap Some (getClock sdk client)) (fun _ => Return None)) in
      let '(account, positions, openOrders, clock) := all in
      Return {| account := account; positions := positions;
                openOrders := openOrders; clock := clock |}
  end.

(** What a settled call contributes to the snapshot. *)
Definition value_or {A B} (f : A -> B) (dflt : B) (c : Completion E A) : B :=
  match c with
  | Return a => f a
  | Throw _ => dflt
  end.

Definition snapshot_of (sdk : Sdk) (client : AlpacaConfig) : AlpacaSnapshot :=
  {| account := value_or Some None (getAccount sdk client);
     positions := value_or (fun x => x) [] (getPositions sdk client);
     openOrders := value_or (fun x => x) [] (getOrders sdk client open_orders_query);
     clock := value_or Some None (getClock sdk client) |}.

End Snapshot.

(** A broker whose every call fails, and one where only the clock fails. *)
Definition failing_sdk : Sdk unit unit unit unit unit :=
  {| getAccount := fun _ => Throw tt;
     getPositions := fun _ => Throw tt;
     getOrders := fun _ _ => Throw tt;
     getClock := fun _ => Throw tt |}.

Definition clockless_sdk : Sdk unit unit unit unit unit :=
  {| getAccount := fun _ => Return tt;
     getPositions := fun _ => Return [tt];
     getOrders := fun _ _ => Return [];
     getClock := fun _ => Throw tt |}.

Definition paper_env : gmap str str :=
  <[lit "ALPACA_API_KEY_ID" := lit "PK1"]>
    (<[lit "ALPACA_API_SECRET_KEY" := lit "s3"]> ∅).

End Alpaca.

(** ** RegimeDetector: breadth over adjusted closes *)

Module Regime.
Import JsString Js.
Local Open Scope Q_scope.

(** A bar of one symbol on one date; [adj_close] may be absent. *)
Record Bar := { close : Q; adj_close : option Q }.

Inductive RegimeError :=
| KeyError (column : str)
| InsufficientHistoryError.

Definition sumQ (l : list Q) : Q := fold_right Qplus 0 l.

Definition mean (l : list Q) : Q := sumQ l / inject_Z (Z.of_nat (length l)).

(** Is the latest price above the average of the trailing window? *)
Definition above_trailing_average (window : list Q) : bool :=
  negb (Qle_bool (List.last window 0) (mean window)).

Definition fraction_above (windows : list (list Q)) : Q :=
  inject_Z (Z.of_nat (length (List.filter above_trailing_average windows)))
  / inject_Z (Z.of_nat (length windows)).

(** The last [n] elements of a series, or the error when it is too short. *)
Definition trailing (n : nat) (series : list Q) : Completion RegimeError (list Q) :=
  if (length series <? n)%nat then Throw InsufficientHistoryError
  else Return (skipn (length series - n) series).

(** [bars["adj_close"]] *)
Definition index_adj_close (b : Bar) : Completion RegimeError Q :=
  match adj_close b with
  | Some p => Return p
  | None => Throw (KeyError (lit "adj_close"))
  end.

(** Modelled from the spec: the Python helper [trend_breadth] is not part of
    the source tree.  The formula is the breadth of section 4.1 (fraction of
    the universe whose price is above its own trailing moving average); the
    unconditional lookup of [adj_close], which raises [KeyError] when the
    field is missing, is the behaviour recorded in TASKS.md, item 2.
    [universe] holds one series of bars per symbol, oldest bar first. *)
Definition trend_breadth (lookback : nat) (universe : list (list Bar))
    : Completion RegimeError Q :=
  let* prices := sequence (map (fun bars => sequence (map index_adj_close bars))
                               universe) in
  let* windows := sequence (map (trailing lookback) prices) in
  Return (fraction_above windows).

Definition has_adj_close (b : Bar) : bool :=
  match adj_close b with Some _ => true | None => false end.

Definition date_has_adj_close (universe : list (list Bar)) (t : nat) : bool :=
  forallb (fun bars => match bars !! t with
                       | Some b => has_adj_close b
                       | None => true
                       end) universe.

(** Modelled from the spec: the contract of section 4.1, "using
    adjusted_close, falling back to close uniformly across all symbols for a
    given date if any symbol lacks adjusted_close". *)
Definition price_with_fallback (universe : list (list Bar)) (t : nat) (b : Bar) : Q :=
  if date_has_adj_close universe t then nullish (adj_close b) (close b)
  else close b.

Definition breadth_with_fallback (lookback : nat) (universe : list (list Bar))
    : Completion RegimeError Q :=
  let prices := map (imap (price_with_fallback universe)) universe in
  let* windows := sequence (map (trailing lookback) prices) in
  Return (fraction_above windows).

(** The duplicate dataset: [adj_close] explicitly set to [close] where absent. *)
Definition fill_adj_close (b : Bar) : Bar :=
  {| close := close b; adj_close := Some (nullish (adj_close b) (close b)) |}.

Definition close_only (p : Q) : Bar := {| close := p; adj_close := None |}.

(** A provider that only delivers raw closes: one rising and one falling
    symbol over three dates. *)
Definition close_only_universe : list (list Bar) :=
  [ map close_only [1; 2; 3]; map close_only [3; 2; 1] ].

End Regime.

(** ** PortfolioSizer, step 3: capacity / Kelly governance *)

Module Kelly.
Local Open Scope Q_scope.

Record KellyInputs := {
  expected_alpha_return : Q;
  expected_impact_cost : Q;
  expected_turnover_cost : Q;
  alpha_variance : Q
}.

(** Modelled from the spec: PortfolioSizer is not part of the source tree.
    Step 3 of section 4.4 and the "Execution-aware Kelly" entry of the guide:
    f_EK = (mu_alpha - impact - c_turnover) / sigma_alpha^2. *)
Definition f_EK (i : KellyInputs) : Q :=
  (expected_alpha_return i - expected_impact_cost i - expected_turnover_cost i)
  / alpha_variance i.

(** Modelled from the spec: the live fraction f = eta * f_EK. *)
Definition live_fraction (eta : Q) (i : KellyInputs) : Q := eta * f_EK i.

(** Modelled from the spec: the unconstrained Kelly fraction f*, from the same
    alpha and variance without the cost terms. *)
Definition kelly_unconstrained (i : KellyInputs) : Q :=
  expected_alpha_return i / alpha_variance i.



End Kelly.

(** ** PortfolioSizer, step 5: constraint projection *)

Module Sizer.
Local Open Scope Q_scope.

Record PortfolioConfig := {
  max_name_weight : Q;
  gross_exposure_cap : Q;
  (** sector / beta factor vectors, one loading per symbol *)
  factor_basis : list (list Q)
}.

Definition sumQ (l : list Q) : Q := fold_right Qplus 0 l.

Definition gross (w : list Q) : Q := sumQ (map Qabs w).

(** Modelled from the spec: PortfolioSizer is not part of the source tree.
    Step 5 of section 4.4: "clip per-name weight to max_name_weight". *)
Definition clip_name (mx w : Q) : Q := Qmax (- mx) (Qmin mx w).

(** Modelled from the spec: "rescale to respect gross exposure cap". *)
Definition rescale_gross (cap : Q) (w : list Q) : list Q :=
  let g := gross w in
  if Qle_bool g cap then w else map (fun x => x * (cap / g)) w.

Definition dot (a b : list Q) : Q := sumQ (zip_with Qmult a b).

Definition Qeq_zero (x : Q) : bool := Qle_bool x 0 && Qle_bool 0 x.

(** Modelled from the spec: "adjust for sector/beta neutrality by subtracting
    the projection onto the sector/beta factor basis".  A factor of zero
    norm has no projection and is skipped. *)
Definition subtract_projection (w f : list Q) : list Q :=
  if Qeq_zero (dot f f) then w
  else zip_with (fun x l => x - (dot w f / dot f f) * l) w f.

Definition neutralize (basis : list (list Q)) (w : list Q) : list Q :=
  fold_left subtract_projection basis w.

(** The caps alone: clip, then rescale. *)
Definition cap_weights (cfg : PortfolioConfig) (w : list Q) : list Q :=
  rescale_gross (gross_exposure_cap cfg) (map (clip_name (max_name_weight cfg)) w).


Definition within_caps (cfg : PortfolioConfig) (w : list Q) : Prop :=
  Forall (fun x => Qabs x <= max_name_weight cfg) w /\
  gross w <= gross_exposure_cap cfg.

(** Sample configuration over three symbols: one sector holding all three
    names, both caps at 1. *)
Definition one_sector : PortfolioConfig :=
  {| max_name_weight := 1; gross_exposure_cap := 1;
     factor_basis := [[1; 1; 1]] |}.

End Sizer.

(** ** BacktestEngine: the equity curve *)

Module Equity.
Local Open Scope R_scope.

Record DayResult := { realized_pnl : R; realized_cost : R }.

(** Modelled from the spec: BacktestEngine is not part of the source tree.
    EquityPoint in section 3: equity_t = equity_{t-1} + realized_pnl_t -
    realized_cost_t. *)
Definition equity_update (equity : R) (d : DayResult) : R :=
  equity + realized_pnl d - realized_cost d.

(** equity_0, ..., equity_n *)
Fixpoint equity_curve (equity0 : R) (days : list DayResult) : list R :=
  equity0 :: match days with
             | [] => []
             | d :: rest => equity_curve (equity_update equity0 d) rest
             end.

(** Log returns ln(equity_t / equity_{t-1}) of consecutive points. *)
Fixpoint log_returns (curve : list R) : list R :=
  match curve with
  | a :: rest =>
      match rest with
      | b :: _ => ln (b / a) :: log_returns rest
      | [] => []
      end
  | [] => []
  end.

Definition sumR (l : list R) : R := fold_right Rplus 0 l.

Definition equity_final (equity0 : R) (days : list DayResult) : R :=
  List.last (equity_curve equity0 days) equity0.

(** A two-day run: a gain, then a loss. *)
Definition two_days : list DayResult :=
  [ {| realized_pnl := 10; realized_cost := 1 |};
    {| realized_pnl := -5; realized_cost := 2 |} ].

End Equity.

(** ** CostModel *)

Module Cost.
Import Js.
Local Open Scope R_scope.

Record CostConfig := {
  k : R;
  borrow_rate : R;
  slippage_buffer : R;
  (** conservative defaults for degenerate liquidity data *)
  adv_floor : R;
  default_spread_pct : R
}.

(** quantity and notional are magnitudes (the side is carried separately);
    [net_notional] is the signed position notional, negative when short. *)
Record OrderCandidate := {
  quantity : R;
  notional : R;
  average_daily_volume : R;
  spread_pct : option R;
  net_notional : R
}.

Inductive CostModelError :=
| DivisionByZero
| SqrtDomain.

Definition checked_div (x y : R) : Completion CostModelError R :=
  if Req_dec_T y 0 then Throw DivisionByZero else Return (x / y).

Definition checked_sqrt (x : R) : Completion CostModelError R :=
  if Rlt_dec x 0 then Throw SqrtDomain else Return (sqrt x).

(** Modelled from the spec: CostModel is not part of the source tree.
    By sections 4.5 and 7, zero or negative ADV or spread is clamped to a
    conservative floor; absent spread data takes the default. *)
Definition effective_adv (cfg : CostConfig) (o : OrderCandidate) : R :=
  Rmax (average_daily_volume o) (adv_floor cfg).

Definition effective_spread (cfg : CostConfig) (o : OrderCandidate) : R :=
  match spread_pct o with
  | Some s => Rmax s (default_spread_pct cfg)
  | None => default_spread_pct cfg
  end.

(** spread_cost = (spread_pct / 2) * notional *)
Definition spread_cost (cfg : CostConfig) (o : OrderCandidate) : R :=
  effective_spread cfg o / 2 * notional o.

(** impact_cost = k * sqrt(quantity / average_daily_volume) * notional *)
Definition impact_cost (cfg : CostConfig) (o : OrderCandidate)
    : Completion CostModelError R :=
  let* participation := checked_div (quantity o) (effective_adv cfg o) in
  let* root := checked_sqrt participation in
  Return (k cfg * root * notional o).

(** borrow_cost = daily_borrow_rate * notional, on net-short notional only *)
Definition borrow_cost (cfg : CostConfig) (o : OrderCandidate) : R :=
  borrow_rate cfg * Rmax 0 (- net_notional o).

(** Modelled from the spec: cost = spread_cost + impact_cost + borrow_cost +
    slippage_buffer. *)
Definition total_cost (cfg : CostConfig) (o : OrderCandidate)
    : Completion CostModelError R :=
  let* impact := impact_cost cfg o in
  Return (spread_cost cfg o + impact + borrow_cost cfg o + slippage_buffer cfg).

(** Modelled from the spec: [estimate(order_candidate) -> expected_cost]. *)
Definition estimate (cfg : CostConfig) (o : OrderCandidate)
    : Completion CostModelError R := total_cost cfg o.

(** Modelled from the spec: [charge(order) -> realized_cost], the same four
    components on the executed order. *)
Definition charge (cfg : CostConfig) (o : OrderCandidate)
    : Completion CostModelError R := total_cost cfg o.

Definition valid_config (cfg : CostConfig) : Prop :=
  0 <= k cfg /\ 0 <= borrow_rate cfg /\ 0 <= slippage_buffer cfg /\
  0 < adv_floor cfg /\ 0 <= default_spread_pct cfg.

Definition magnitudes (o : OrderCandidate) : Prop :=
  0 <= quantity o /\ 0 <= notional o.

(** The scenario of section 8: a symbol with zero average daily volume and
    no spread data on the trade date. *)
Definition sample_config : CostConfig :=
  {| k := 1 / 10; borrow_rate := 1 / 10000; slippage_buffer := 1 / 2;
     adv_floor := 1000; default_spread_pct := 1 / 100 |}.

Definition zero_adv_order : OrderCandidate :=
  {| quantity := 100; notional := 5000; average_daily_volume := 0;
     spread_pct := None; net_notional := -5000 |}.

End Cost.

(** * The rest of the data layer: summaries, routes and their callers *)

(** ** JavaScript arrays and values that may be null or undefined *)

Module JsArray.
Import JsString.

(** [a.slice(-n)]: the last [n] elements, the whole array when it is shorter. *)
Definition slice_last {A} (n : nat) (a : list A) : list A :=
  skipn (length a - n) a.

(** [a.join(sep)] on an array of strings *)
Fixpoint join (sep : str) (a : list str) : str :=
  match a with
  | [] => []
  | x :: rest =>
      match rest with
      | [] => x
      | _ :: _ => x ++ sep ++ join sep rest
      end
  end.

Inductive Nullable (A : Type) : Type :=
| JsUndefined
| JsNull
| JsValue (a : A).
Arguments JsUndefined {A}.
Arguments JsNull {A}.
Arguments JsValue {A} a.

(** [a[i]] *)
Definition index {A} (a : list A) (i : nat) : Nullable A :=
  match a !! i with
  | Some x => JsValue x
  | None => JsUndefined
  end.

End JsArray.

(** ** [NextResponse.json] *)

Module Next.
Import JsString.

Inductive Body (A : Type) : Type :=
| ErrorBody (error : str)
| JsonBody (payload : A).
Arguments ErrorBody {A} error.
Arguments JsonBody {A} payload.

Record Response (A : Type) := { status : nat; body : Body A }.
Arguments status {A} r.
Arguments body {A} r.

(** [NextResponse.json(payload)] *)
Definition json {A} (payload : A) : Response A :=
  {| status := 200; body := JsonBody payload |}.

(** [NextResponse.json({ error }, { status })] *)
Definition json_error {A} (error : str) (code : nat) : Response A :=
  {| status := code; body := ErrorBody error |}.

(** [searchParams.get(name)]: the first value under [name], else null. *)
Fixpoint get (searchParams : list (str * str)) (name : str) : option str :=
  match searchParams with
  | [] => None
  | (k, v) :: rest => if bool_decide (k = name) then Some v else get rest name
  end.

End Next.

(** ** web/lib/server/live-pnl.ts and web/lib/repo.ts, continued *)

Module Repo.
Import JsString Js JsArray Csv.

Section Summary.

Variable E : Type.
Variable num : Type.
Variable NaN : num.
Variable parse_numeric : str -> num.
Variable resolveRepoPath : str -> str.
(** [YAML.parse] *)
Variable Yaml : Type.
Variable yaml_parse : str -> Completion E Yaml.
Variables Account Position Order Clock : Type.

(** [latestLivePnl]: [rows.length ? rows[rows.length - 1] : null] *)
Definition latestLivePnl (readFile : str -> Completion E str)
    : Completion E (Nullable (LivePnlRow num)) :=
  let* rows := readLivePnl E num NaN parse_numeric resolveRepoPath readFile
                 (lit "reports/live_pnl.csv") in
  Return (match length rows with
          | O => JsNull
          | S _ => index rows (length rows - 1)
          end).

(** [readYamlConfig]: null when the file cannot be read or parsed. *)
Definition readYamlConfig (readFile : str -> Completion E str) (file : str)
    : Completion E (option Yaml) :=
  try_catch
    (let* raw := readFile (resolveRepoPath file) in
     let* parsed := yaml_parse raw in
     Return (Some parsed))
    (fun _ => Return None).

Definition readme_fallback : str :=
  lit "# Documentation" ++ [LF] ++ lit "Repository README is unavailable.".

(** [readReadme] *)
Definition readReadme (readFile : str -> Completion E str) (file : str)
    : Completion E str :=
  try_catch (readFile (resolveRepoPath file)) (fun _ => Return readme_fallback).

Record Summary := {
  config : option Yaml;
  pnl : Nullable (LivePnlRow num);
  alpaca : Alpaca.AlpacaSnapshot Account Position Order Clock;
  tradeCount : nat;
  recentTrades : list (TradeLogRow num)
}.

(** [readSummary] *)
Definition readSummary (type_error : E) (readFile : str -> Completion E str)
    (env : gmap str str) (sdk : Alpaca.Sdk E Account Position Order Clock)
    : Completion E Summary :=
  let* config := readYamlConfig readFile (lit "src/quantbobe/config/default.yaml") in
  let* trades := readTradesCsv E num NaN parse_numeric resolveRepoPath type_error
                   readFile (lit "reports/trades.csv") in
  let* alpaca := Alpaca.fetchAlpacaSnapshot E Account Position Order Clock env sdk in
  let* latestPnl := latestLivePnl readFile in
  let recentTrades := rev (slice_last 5 trades) in
  Return {| config := config;
            pnl := latestPnl;
            alpaca := alpaca;
            tradeCount := length trades;
            recentTrades := recentTrades |}.

(** A live P&L record read by column name, as [readLivePnl] builds it: a
    column that the header lacks reads as the string "0". *)
Definition pnl_by_column (headers : list str) (row : str) : LivePnlRow num :=
  {| timestamp := cell headers row (lit "timestamp");
     equity := Number num NaN parse_numeric
                 (Some (nullish (cell headers row (lit "equity")) (lit "0")));
     cash := Number num NaN parse_numeric
               (Some (nullish (cell headers row (lit "cash")) (lit "0"))) |}.

(** [readLivePnlCsv] as the second listing of web/lib/repo.ts defines it
    (lines 146 to 167): no guard on the header, and [Number] applied to the
    property read as it is. *)
Definition point_of_record (record : gmap str str) : LivePnlRow num :=
  {| timestamp := record !! lit "timestamp";
     equity := Number num NaN parse_numeric (record !! lit "equity");
     cash := Number num NaN parse_numeric (record !! lit "cash") |}.

Definition readLivePnlCsv (type_error : E) (readFile : str -> Completion E str)
    (file : str) : Completion E (list (LivePnlRow num)) :=
  try_catch
    (let* raw := readFile (resolveRepoPath file) in
     let '(headerLine, rows) := destructure (split_lines (trim raw)) in
     let* headers := match headerLine with
                     | Some h => Return (split_on comma h)
                     | None => Throw type_error
                     end in
     Return (map (fun row => point_of_record (row_record headers row)) rows))
    (fun _ => Return []).

(** The header line of a file content. *)
Definition header_names (raw : str) : list str :=
  match split_lines (trim raw) with
  | [] => []
  | h :: _ => split_on comma h
  end.

(** A trade record read by position, under the header that the engine
    writes. *)
Definition trades_header : str := lit "date,symbol,quantity,price,notional,sleeve".

Definition trade_by_position (row : str) : TradeLogRow num :=
  {| date := Some (field 0 row);
     symbol := Some (field 1 row);
     quantity := Number num NaN parse_numeric (Some (field 2 row));
     price := Number num NaN parse_numeric (Some (field 3 row));
     notional := Number num NaN parse_numeric (Some (field 4 row));
     sleeve := Some (field 5 row) |}.

End Summary.

(** Two rows of a trade log; the second ends in a blank. *)
Definition sample_trade_rows : list str :=
  [ lit "2024-03-01,AAPL,10,180.5,1805,C_xsec_qv";
    lit "2024-03-01,MSFT,-4,410,-1640,D_intraday_rev " ].

(** A live P&L file whose columns are in another order and lack the equity. *)
Definition reordered_pnl : str :=
  lit "cash,timestamp" ++ [LF] ++ lit "40000,2024-03-01T14:30:00" ++ [LF].

(** web/components/trading/trade-ledger.tsx: [trades.slice(-20).reverse()] *)
Definition TradeLedger_rows {A} (trades : list A) : list A :=
  rev (slice_last 20 trades).

(** A log of seven fills, numbered in the order they were written. *)
Definition seven_fills : list nat := [1; 2; 3; 4; 5; 6; 7].

End Repo.

(** ** web/lib/server/alpaca.ts, continued, and the routes under
    web/app/api/alpaca *)

Module AlpacaApi.
Import JsString Js Next Alpaca.

Section Routes.

Variable E : Type.
(** Results of the broker SDK are objects: never null, undefined or falsy. *)
Variables Account Position Order Clock History : Type.

Record HistoryQuery := {
  period : str;
  timeframe : str;
  extended_hours : bool
}.

(** [fetchRecentOrders(limit)] *)
Definition fetchRecentOrders (env : gmap str str)
    (sdk : Sdk E Account Position Order Clock) (limit : nat)
    : Completion E (list Order) :=
  match getAlpacaClient env with
  | None => Return []
  | Some client =>
      try_catch
        (getOrders _ _ _ _ _ sdk client
           {| query_status := lit "all"; direction := lit "desc";
              nested := true; Alpaca.limit := limit |})
        (fun _ => Return [])
  end.

(** [fetchPortfolioHistory(timeframe)], over the SDK call
    [client.getPortfolioHistory] *)
Definition fetchPortfolioHistory (env : gmap str str)
    (getPortfolioHistory : AlpacaConfig -> HistoryQuery -> Completion E History)
    (timeframe : str) : Completion E (option History) :=
  match getAlpacaClient env with
  | None => Return None
  | Some client =>
      try_catch
        (fmap Some
           (getPortfolioHistory client
              {| period := lit "1M"; timeframe := timeframe;
                 extended_hours := false |}))
        (fun _ => Return None)
  end.

(** web/app/api/alpaca/account/route.ts *)
Definition account_GET (env : gmap str str)
    (sdk : Sdk E Account Position Order Clock) : Completion E (Response Account) :=
  let* snapshot := fetchAlpacaSnapshot E Account Position Order Clock env sdk in
  match account _ _ _ _ snapshot with
  | None => Return (json_error (lit "Alpaca account unavailable") 503)
  | Some a => Return (json a)
  end.

(** web/app/api/alpaca/clock/route.ts *)
Definition clock_GET (env : gmap str str)
    (sdk : Sdk E Account Position Order Clock) : Completion E (Response Clock) :=
  let* snapshot := fetchAlpacaSnapshot E Account Position Order Clock env sdk in
  match clock _ _ _ _ snapshot with
  | None => Return (json_error (lit "Clock unavailable") 503)
  | Some c => Return (json c)
  end.

(** web/app/api/alpaca/positions/route.ts *)
Definition positions_GET (env : gmap str str)
    (sdk : Sdk E Account Position Order Clock)
    : Completion E (Response (list Position)) :=
  let* snapshot := fetchAlpacaSnapshot E Account Position Order Clock env sdk in
  Return (json (positions _ _ _ _ snapshot)).

(** The orders route: [scope === "history"] selects the recent orders. *)
Definition orders_GET (env : gmap str str)
    (sdk : Sdk E Account Position Order Clock) (searchParams : list (str * str))
    : Completion E (Response (list Order)) :=
  let scope := nullish (get searchParams (lit "scope")) (lit "open") in
  if bool_decide (scope = lit "history") then
    let* orders := fetchRecentOrders env sdk 50 in
    Return (json orders)
  else
    let* snapshot := fetchAlpacaSnapshot E Account Position Order Clock env sdk in
    Return (json (openOrders _ _ _ _ snapshot)).

(** web/app/api/alpaca/portfolio/route.ts *)
Definition portfolio_GET (env : gmap str str)
    (getPortfolioHistory : AlpacaConfig -> HistoryQuery -> Completion E History)
    (searchParams : list (str * str)) : Completion E (Response History) :=
  let timeframe := nullish (get searchParams (lit "timeframe")) (lit "1D") in
  let* history := fetchPortfolioHistory env getPortfolioHistory timeframe in
  match history with
  | None => Return (json_error (lit "Portfolio history unavailable") 503)
  | Some h => Return (json h)
  end.

(** A credential the client cannot use: unset, or the empty string. *)
Definition missing (env : gmap str str) (name : str) : Prop :=
  env !! name = None \/ env !! name = Some [].

Definition credentials_missing (env : gmap str str) : Prop :=
  missing env (lit "ALPACA_API_KEY_ID") \/ missing env (lit "ALPACA_API_SECRET_KEY").

Definition all_orders_query (limit : nat) : OrderQuery :=
  {| query_status := lit "all"; direction := lit "desc";
     nested := true; Alpaca.limit := limit |}.

End Routes.

(** An environment whose secret is set to the empty string. *)
Definition blank_secret_env : gmap str str :=
  <[lit "ALPACA_API_KEY_ID" := lit "PK1"]>
    (<[lit "ALPACA_API_SECRET_KEY" := []]> ∅).

End AlpacaApi.

(** ** web/lib/server/yahoo.ts, continued, the market routes and the
    watchlist component *)

Module Market.
Import JsString Js JsArray Watchlist.

Section Routes.

Variable E : Type.
Variable Quote : Type.
Variable yahoo_quote : str -> Completion E Quote.
Variable HistoricalRow : Type.

Record HistoricalQuery := {
  period1 : option str;
  period2 : option str;
  interval : str;
  range : str
}.

(** [yahooFinance.historical(symbol, queryOptions, ...)]: the rows, or a
    null or undefined result. *)
Variable yahoo_historical :
  str -> HistoricalQuery -> Completion E (option (list HistoricalRow)).

(** [fetchHistorical({ symbol, interval = '1d', range = '1mo', period1,
    period2 })]: a parameter left undefined takes its default. *)
Definition fetchHistorical (symbol : str) (interval range : option str)
    (period1 period2 : option str) : Completion E (list HistoricalRow) :=
  let queryOptions :=
    {| period1 := period1; period2 := period2;
       interval := nullish interval (lit "1d");
       range := nullish range (lit "1mo") |} in
  try_catch
    (let* results := yahoo_historical symbol queryOptions in
     Return (nullish results []))
    (fun _ => Return []).

(** The history route: [interval] defaults to "1d" in the route, the other
    parameters are passed on as undefined when absent. *)
Definition history_GET (searchParams : list (str * str))
    : Completion E (Next.Response (list HistoricalRow)) :=
  let symbol := Next.get searchParams (lit "symbol") in
  if falsy symbol then Return (Next.json_error (lit "symbol is required") 400)
  else
    let interval := nullish (Next.get searchParams (lit "interval")) (lit "1d") in
    let range := Next.get searchParams (lit "range") in
    let period1 := Next.get searchParams (lit "period1") in
    let period2 := Next.get searchParams (lit "period2") in
    let* data := fetchHistorical (nullish symbol []) (Some interval) range
                   period1 period2 in
    Return (Next.json data).

(** web/components/trading/market-overview.tsx: the query string of the
    watchlist poll, [symbols.join(",")]. *)
Definition watchlist_query (symbols : list str) : str := join [comma] symbols.

(** What a settled history request leaves in the response. *)
Definition rows_or_empty (c : Completion E (option (list HistoricalRow)))
    : list HistoricalRow :=
  match c with
  | Return (Some rows) => rows
  | _ => []
  end.

(** A symbol that survives the route unchanged: not empty, no comma, no
    white space at either end. *)
Definition clean_symbol (s : str) : Prop :=
  s <> [] /\ no_char comma s = true /\ trim s = s.

End Routes.

Section Quotes.

Variable E : Type.
Variable Quote : Type.

(** [yahooFinance.quote(symbol)] resolves a quote object, or a nullish value
    ([undefined] for a symbol it has no result for): [Some q] is the object,
    [None] the nullish value. *)
Variable yahoo_quote : str -> Completion E (option Quote).

(** What [if (!quote)] lets through: a quote object is truthy; null,
    undefined and a nullish resolved value are falsy. *)
Definition truthy_quote (quote : JsQuote (option Quote)) : option Quote :=
  match quote with
  | QuoteValue _ (Some q) => Some q
  | _ => None
  end.

(** The quote route: one symbol, 400 without it, 503 without a quote. *)
Definition quote_GET (searchParams : list (str * str))
    : Completion E (Next.Response Quote) :=
  let symbol := Next.get searchParams (lit "symbol") in
  if falsy symbol then Return (Next.json_error (lit "symbol is required") 400)
  else
    let* quote := fetchQuote E (option Quote) yahoo_quote (nullish symbol []) in
    match truthy_quote quote with
    | None => Return (Next.json_error (lit "Quote unavailable") 503)
    | Some q => Return (Next.json q)
    end.

(** web/components/trading/market-overview.tsx: the quote shown for the
    selected symbol,
    [data.find((item) => item.symbol === selected)?.quote ?? null]: the quote
    object of the first entry under the symbol, and null when there is no
    such entry or its quote is null or undefined. *)
Definition selectedQuote (data : list (str * JsQuote (option Quote)))
    (selected : str) : JsQuote Quote :=
  match List.find (fun item => bool_decide (fst item = selected)) data with
  | Some (_, QuoteValue _ (Some q)) => QuoteValue _ q
  | _ => QuoteNull _
  end.

End Quotes.

(** web/lib/server/trading-data.ts *)
Definition WATCH_SYMBOLS : list str :=
  [lit "AAPL"; lit "MSFT"; lit "NVDA"; lit "ES=F"; lit "NQ=F"; lit "CL=F"].

End Market.

(** ** web/lib/server/trading-data.ts *)

Module TradingData.
Import JsString Js JsArray.

Section Load.

Variable E : Type.
Variable num : Type.
(** [NaN] and [0] among the numbers *)
Variable NaN : num.
Variable zero : num.
Variable parse_numeric : str -> num.
Variable resolveRepoPath : str -> str.
Variables Account Position Order Clock : Type.
Variable Quote : Type.
Variable yahoo_quote : str -> Completion E Quote.
(** [new Date(ts * 1000).toISOString()]: a RangeError is thrown for a time
    that [Date] cannot represent. *)
Variable iso_of_seconds : num -> Completion E str.

(** The portfolio history of the broker: either array may be missing, and
    an equity may be null. *)
Record PortfolioHistory := {
  timestamp : option (list num);
  equity : option (list (option num))
}.

Record HistoryPoint := { point_timestamp : str; point_equity : num }.

(** [Number(portfolioHistory.equity[idx])]: a number is itself, null is 0,
    undefined (past the end of the array) is NaN. *)
Definition equity_at (equities : list (option num)) (idx : nat) : num :=
  match equities !! idx with
  | Some (Some x) => x
  | Some None => zero
  | None => NaN
  end.

(** The series built from the history: empty unless both arrays exist. *)
Definition historySeries (portfolioHistory : option PortfolioHistory)
    : Completion E (list HistoryPoint) :=
  match portfolioHistory with
  | Some {| timestamp := Some timestamps; equity := Some equities |} =>
      sequence
        (imap (fun idx ts =>
                 let* iso := iso_of_seconds ts in
                 Return {| point_timestamp := iso;
                           point_equity := equity_at equities idx |})
              timestamps)
  | _ => Return []
  end.

Record TradingData := {
  snapshot : Alpaca.AlpacaSnapshot Account Position Order Clock;
  pnlHistory : list (Csv.LivePnlRow num);
  orderHistory : list Order;
  trades : list (Csv.TradeLogRow num);
  portfolioHistory : list HistoryPoint;
  watchlist : list (str * Watchlist.JsQuote Quote)
}.

(** [loadTradingData] *)
Definition loadTradingData (type_error : E) (readFile : str -> Completion E str)
    (env : gmap str str) (sdk : Alpaca.Sdk E Account Position Order Clock)
    (getPortfolioHistory :
       Alpaca.AlpacaConfig -> AlpacaApi.HistoryQuery -> Completion E PortfolioHistory)
    : Completion E TradingData :=
  let* all :=
    Alpaca.promise_all4 E
      (Alpaca.fetchAlpacaSnapshot E Account Position Order Clock env sdk)
      (Csv.readLivePnl E num NaN parse_numeric resolveRepoPath readFile
         (lit "reports/live_pnl.csv"))
      (AlpacaApi.fetchRecentOrders E Account Position Order Clock env sdk 50)
      (Csv.readTradesCsv E num NaN parse_numeric resolveRepoPath type_error
         readFile (lit "reports/trades.csv")) in
  let '(snapshot, pnlHistory, orderHistory, trades) := all in
  let* history :=
    AlpacaApi.fetchPortfolioHistory E PortfolioHistory env getPortfolioHistory
      (lit "1D") in
  let* quotes :=
    promise_all (map (Watchlist.fetchQuote E Quote yahoo_quote)
                     Market.WATCH_SYMBOLS) in
  let* historySeries := historySeries history in
  Return {| snapshot := snapshot;
            pnlHistory := pnlHistory;
            orderHistory := orderHistory;
            trades := trades;
            portfolioHistory := historySeries;
            watchlist :=
              imap (fun idx symbol =>
                      (symbol, nullish (quotes !! idx) (Watchlist.QuoteUndefined Quote)))
                   Market.WATCH_SYMBOLS |}.

(** The timestamps of a history that has both arrays. *)
Definition series_timestamps (portfolioHistory : option PortfolioHistory)
    : list num :=
  match portfolioHistory with
  | Some {| timestamp := Some timestamps; equity := Some _ |} => timestamps
  | _ => []
  end.

End Load.

End TradingData.
(** * Proofs *)

(** ** Strings *)

Module JsStringFacts.
Import JsString.

Lemma cons_head_nonempty (c : ascii) (fields : list str) : cons_head c fields <> [].
Proof. destruct fields; discriminate. Qed.

Lemma split_on_nonempty (sep : ascii) (s : str) : split_on sep s <> [].
Proof.
  destruct s as [|c r]; simpl; [discriminate|].
  destruct (ascii_eqb c sep); [discriminate | apply cons_head_nonempty].
Qed.

Lemma split_lines_nonempty (s : str) : split_lines s <> [].
Proof.
  destruct s as [|c r]; simpl; [discriminate|].
  destruct (ascii_eqb c LF); [discriminate|].
  destruct r as [|c' r']; [discriminate|].
  destruct (ascii_eqb c CR && ascii_eqb c' LF);
    [discriminate | apply cons_head_nonempty].
Qed.

Lemma ascii_eqb_eq (a b : ascii) : ascii_eqb a b = true <-> a = b.
Proof. apply Ascii.eqb_eq. Qed.

(** *** trim *)

Lemma trimStart_non_ws (c : ascii) (r : str) :
  is_ws c = false -> trimStart (c :: r) = c :: r.
Proof. intros H. simpl. rewrite H. reflexivity. Qed.

Lemma trimStart_all_ws (s : str) : forallb is_ws s = true -> trimStart s = [].
Proof.
  induction s as [|c r IH]; [reflexivity|]. simpl.
  intros H. apply andb_true_iff in H as [Hc Hr]. rewrite Hc. exact (IH Hr).
Qed.

Lemma trimEnd_all_ws (s : str) : forallb is_ws s = true -> trimEnd s = [].
Proof.
  destruct s as [|c r]; [reflexivity|]. simpl. intros H. rewrite H. reflexivity.
Qed.

Lemma trimEnd_cons_non_ws (c : ascii) (r : str) :
  is_ws c && forallb is_ws r = false -> trimEnd (c :: r) = c :: trimEnd r.
Proof. intros H. simpl. rewrite H. reflexivity. Qed.

Lemma trimEnd_app_ws (x w : str) :
  forallb is_ws w = true -> trimEnd (x ++ w) = trimEnd x.
Proof.
  intros Hw. induction x as [|c x IH]; [apply trimEnd_all_ws, Hw|].
  simpl. rewrite forallb_app, Hw, andb_true_r, IH. reflexivity.
Qed.

Lemma trimEnd_app_non_ws (x y : str) :
  forallb is_ws y = false -> trimEnd (x ++ y) = x ++ trimEnd y.
Proof.
  intros Hy. induction x as [|c x IH]; [reflexivity|].
  simpl. rewrite forallb_app, Hy, !andb_false_r, IH. reflexivity.
Qed.

Lemma all_ws_trimEnd (s : str) :
  forallb is_ws (trimEnd s) = forallb is_ws s.
Proof.
  induction s as [|c r IH]; [reflexivity|].
  simpl trimEnd. destruct (is_ws c && forallb is_ws r) eqn:H.
  - simpl. symmetry. exact H.
  - simpl. rewrite IH. reflexivity.
Qed.

Lemma trimEnd_idempotent (s : str) : trimEnd (trimEnd s) = trimEnd s.
Proof.
  induction s as [|c r IH]; [reflexivity|].
  simpl trimEnd at 2 3. destruct (is_ws c && forallb is_ws r) eqn:H; [reflexivity|].
  rewrite trimEnd_cons_non_ws by (rewrite all_ws_trimEnd; exact H).
  rewrite IH. reflexivity.
Qed.

Lemma trimStart_ws (c : ascii) (r : str) :
  is_ws c = true -> trimStart (c :: r) = trimStart r.
Proof. intros H. simpl. rewrite H. reflexivity. Qed.

Lemma trimStart_trimEnd (s : str) : trimStart (trimEnd s) = trimEnd (trimStart s).
Proof.
  induction s as [|c r IH]; [reflexivity|].
  destruct (is_ws c) eqn:Hc.
  - rewrite (trimStart_ws c r Hc).
    destruct (forallb is_ws r) eqn:Hr.
    + rewrite (trimEnd_all_ws (c :: r)) by (simpl; rewrite Hc, Hr; reflexivity).
      rewrite (trimStart_all_ws r Hr). reflexivity.
    + rewrite trimEnd_cons_non_ws by (rewrite Hr; apply andb_false_r).
      rewrite (trimStart_ws c _ Hc). exact IH.
  - rewrite (trimStart_non_ws c r Hc).
    rewrite trimEnd_cons_non_ws by (rewrite Hc; reflexivity).
    apply trimStart_non_ws, Hc.
Qed.

(** Trailing white space does not survive [trim]. *)
Lemma trim_trimEnd (s : str) : trim (trimEnd s) = trim s.
Proof.
  unfold trim. rewrite trimStart_trimEnd. apply trimEnd_idempotent.
Qed.

Lemma forallb_trimEnd (P : ascii -> bool) (s : str) :
  forallb P s = true -> forallb P (trimEnd s) = true.
Proof.
  induction s as [|c r IH]; [reflexivity|].
  intros H. simpl in H. apply andb_true_iff in H as [Hc Hr].
  simpl. destruct (is_ws c && forallb is_ws r); [reflexivity|].
  simpl. rewrite Hc. exact (IH Hr).
Qed.

(** *** map_last *)

Lemma map_last_cons {A} (f : A -> A) (x y : A) (l : list A) :
  map_last f (x :: y :: l) = x :: map_last f (y :: l).
Proof. reflexivity. Qed.

Lemma map_last_Forall {A} (P : A -> Prop) (f : A -> A) (l : list A) :
  (forall x, P x -> P (f x)) -> Forall P l -> Forall P (map_last f l).
Proof.
  intros Hf Hl. induction Hl as [|x l Hx Hl IH]; [constructor|].
  destruct l as [|y l]; [repeat constructor; auto|].
  rewrite map_last_cons. constructor; assumption.
Qed.

(** *** split on a separator *)

Lemma split_on_no_sep (sep : ascii) (s : str) :
  no_char sep s = true -> split_on sep s = [s].
Proof.
  unfold no_char. induction s as [|c r IH]; [reflexivity|].
  simpl. intros H. apply andb_true_iff in H as [Hc Hr].
  apply negb_true_iff in Hc. rewrite Hc, (IH Hr). reflexivity.
Qed.

Lemma split_on_single (sep : ascii) (s f : str) :
  split_on sep s = [f] -> f = s.
Proof.
  revert f. induction s as [|c r IH]; intros f; simpl.
  - congruence.
  - destruct (ascii_eqb c sep).
    + intros H. inversion H as [[Hf Hnil]].
      exfalso. exact (split_on_nonempty sep r Hnil).
    + destruct (split_on sep r) as [|g gs] eqn:Hr; simpl.
      * exfalso. exact (split_on_nonempty sep r Hr).
      * intros H. inversion H; subst. f_equal. apply IH. reflexivity.
Qed.

Lemma all_ws_no_comma (s : str) :
  forallb is_ws s = true -> no_char comma s = true.
Proof.
  unfold no_char. induction s as [|c r IH]; [reflexivity|].
  simpl. intros H. apply andb_true_iff in H as [Hc Hr].
  rewrite (IH Hr), andb_true_r. apply negb_true_iff.
  destruct (ascii_eqb c comma) eqn:Heq; [|reflexivity].
  apply ascii_eqb_eq in Heq. subst c. discriminate Hc.
Qed.

Lemma two_fields_not_blank (s : str) :
  2 <= length (split_on comma s) -> forallb is_ws s = false.
Proof.
  intros H. destruct (forallb is_ws s) eqn:Hws; [|reflexivity].
  rewrite (split_on_no_sep comma s (all_ws_no_comma s Hws)) in H.
  simpl in H. lia.
Qed.

(** Trimming the end of a row trims the end of its last field only. *)
Lemma split_on_trimEnd (s : str) :
  split_on comma (trimEnd s) = map_last trimEnd (split_on comma s).
Proof.
  induction s as [|c r IH]; [reflexivity|].
  simpl split_on at 2. destruct (ascii_eqb c comma) eqn:Hsep.
  - assert (Hc : is_ws c = false).
    { apply ascii_eqb_eq in Hsep. subst c. reflexivity. }
    rewrite trimEnd_cons_non_ws by (rewrite Hc; reflexivity).
    simpl split_on. rewrite Hsep, IH.
    destruct (split_on comma r) as [|f fs] eqn:Hr;
      [exfalso; exact (split_on_nonempty comma r Hr)|].
    reflexivity.
  - destruct (is_ws c && forallb is_ws r) eqn:Hws.
    + apply andb_true_iff in Hws as [Hc Hr].
      rewrite (split_on_no_sep comma r (all_ws_no_comma r Hr)).
      simpl. rewrite Hc, Hr. reflexivity.
    + rewrite trimEnd_cons_non_ws by exact Hws.
      simpl split_on. rewrite Hsep, IH.
      destruct (split_on comma r) as [|f [|g gs]] eqn:Hr.
      * exfalso. exact (split_on_nonempty comma r Hr).
      * apply split_on_single in Hr. subst f.
        simpl. rewrite Hws. reflexivity.
      * reflexivity.
Qed.

(** *** split into lines *)

Lemma not_eol_char (c : ascii) :
  negb (is_eol_char c) = true -> ascii_eqb c LF = false /\ ascii_eqb c CR = false.
Proof.
  unfold is_eol_char. intros H. apply negb_true_iff, orb_false_iff in H. exact H.
Qed.

Lemma split_lines_cons (c c' : ascii) (r : str) :
  ascii_eqb c LF = false -> ascii_eqb c CR = false ->
  split_lines (c :: c' :: r) = cons_head c (split_lines (c' :: r)).
Proof. intros Hlf Hcr. simpl. rewrite Hlf, Hcr. reflexivity. Qed.

Lemma split_lines_no_eol (s : str) : no_eol s = true -> split_lines s = [s].
Proof.
  unfold no_eol. induction s as [|c r IH]; [reflexivity|].
  simpl forallb. intros H. apply andb_true_iff in H as [Hc Hr].
  apply not_eol_char in Hc as [Hlf Hcr].
  specialize (IH Hr).
  destruct r as [|c' r']; [simpl; rewrite Hlf; reflexivity|].
  rewrite (split_lines_cons c c' r' Hlf Hcr), IH. reflexivity.
Qed.

Lemma split_lines_line (x eol rest : str) :
  no_eol x = true -> eol = [LF] \/ eol = [CR; LF] ->
  split_lines (x ++ eol ++ rest) = x :: split_lines rest.
Proof.
  unfold no_eol. intros Hx Heol. induction x as [|c x IH].
  - destruct Heol as [->| ->]; reflexivity.
  - simpl forallb in Hx. apply andb_true_iff in Hx as [Hc Hx].
    apply not_eol_char in Hc as [Hlf Hcr]. specialize (IH Hx).
    change ((c :: x) ++ eol ++ rest) with (c :: (x ++ eol ++ rest)).
    destruct (x ++ eol ++ rest) as [|c' r'] eqn:Hr.
    + exfalso. destruct x; destruct Heol as [->| ->]; discriminate Hr.
    + rewrite (split_lines_cons c c' r' Hlf Hcr), IH. reflexivity.
Qed.

Lemma split_lines_join (eol : str) (h : str) (rest : list str) :
  eol = [LF] \/ eol = [CR; LF] ->
  Forall (fun l => no_eol l = true) (h :: rest) ->
  split_lines (join_lines eol (h :: rest)) = h :: rest.
Proof.
  intros Heol. revert h. induction rest as [|r rest IH]; intros h Hall.
  - simpl. rewrite app_nil_r. apply split_lines_no_eol.
    inversion Hall; assumption.
  - inversion Hall as [|? ? Hh Hrest]; subst.
    simpl. rewrite <- app_assoc.
    rewrite (split_lines_line h eol _ Hh Heol). f_equal.
    apply (IH r Hrest).
Qed.

(** Trimming the end of a text whose lines are not blank trims the end of its
    last line. *)
Lemma trimEnd_join (eol : str) (h : str) (rest : list str) (tail : str) :
  Forall (fun l => forallb is_ws l = false) (h :: rest) ->
  forallb is_ws tail = true ->
  trimEnd (join_lines eol (h :: rest) ++ tail)
  = join_lines eol (map_last trimEnd (h :: rest)).
Proof.
  intros Hall Htail. revert h Hall.
  induction rest as [|r rest IH]; intros h Hall.
  - simpl. rewrite !app_nil_r. apply trimEnd_app_ws, Htail.
  - inversion Hall as [|? ? Hh Hrest]; subst.
    assert (Hr : forallb is_ws r = false) by (inversion Hrest; assumption).
    rewrite map_last_cons.
    change (join_lines eol (h :: r :: rest))
      with (h ++ (eol ++ r) ++ concat (map (fun x => eol ++ x) rest)).
    replace ((h ++ (eol ++ r) ++ concat (map (fun x => eol ++ x) rest)) ++ tail)
      with ((h ++ eol) ++ (join_lines eol (r :: rest) ++ tail))
      by (simpl; rewrite <- !app_assoc; reflexivity).
    rewrite trimEnd_app_non_ws.
    + rewrite (IH r Hrest).
      destruct (map_last trimEnd (r :: rest)) as [|r' rest'] eqn:Hm.
      * destruct rest; discriminate Hm.
      * simpl. rewrite <- !app_assoc. reflexivity.
    + simpl. rewrite <- app_assoc, forallb_app, Hr. reflexivity.
Qed.

End JsStringFacts.

Module JsFacts.
Import JsString Js.

Lemma sequence_map_return {E A B} (f : A -> Completion E B) (g : A -> B)
    (l : list A) :
  (forall x, In x l -> f x = Return (g x)) ->
  sequence (map f l) = Return (map g l).
Proof.
  induction l as [|x l IH]; intros Hf; [reflexivity|].
  simpl. rewrite (Hf x (or_introl eq_refl)). simpl.
  rewrite IH; [reflexivity|]. intros y Hy. apply Hf. right. exact Hy.
Qed.

Lemma sequence_map_throw {E A B} (f : A -> Completion E B) (e : E)
    (l : list A) :
  (forall x, In x l -> f x = Throw e \/ exists b, f x = Return b) ->
  (exists x, In x l /\ f x = Throw e) ->
  sequence (map f l) = Throw e.
Proof.
  induction l as [|x l IH]; intros Hall [y [Hy Hthrow]]; [destruct Hy|].
  simpl. destruct (Hall x (or_introl eq_refl)) as [Hx|[b Hx]]; rewrite Hx; simpl.
  - reflexivity.
  - destruct Hy as [->|Hy]; [congruence|].
    rewrite IH; [reflexivity| |eauto].
    intros z Hz. apply Hall. right. exact Hz.
Qed.

End JsFacts.

Module RegimeFacts.
Import JsString Js Regime JsFacts.
Local Open Scope Q_scope.

Lemma index_adj_close_cases (b : Bar) :
  index_adj_close b = Throw (KeyError (lit "adj_close")) \/
  exists p, index_adj_close b = Return p.
Proof. unfold index_adj_close. destruct (adj_close b); eauto. Qed.

Lemma index_column_cases (series : list Bar) :
  sequence (map index_adj_close series) = Throw (KeyError (lit "adj_close")) \/
  exists ps, sequence (map index_adj_close series) = Return ps.
Proof.
  induction series as [|b series IH]; simpl; [eauto|].
  destruct (index_adj_close_cases b) as [Hb|[p Hb]]; rewrite Hb; simpl; [eauto|].
  destruct IH as [IH|[ps IH]]; rewrite IH; simpl; eauto.
Qed.

(** Any bar without [adj_close] makes the helper raise [KeyError], whatever
    the lookback. *)
Lemma trend_breadth_key_error (lookback : nat) (universe : list (list Bar))
    (bars : list Bar) (b : Bar) :
  In bars universe -> In b bars -> adj_close b = None ->
  trend_breadth lookback universe = Throw (KeyError (lit "adj_close")).
Proof.
  intros Hbars Hb Hnone. unfold trend_breadth.
  rewrite (sequence_map_throw _ (KeyError (lit "adj_close"))); [reflexivity| |].
  - intros series _. apply index_column_cases.
  - exists bars. split; [exact Hbars|]. apply sequence_map_throw.
    + intros x _. apply index_adj_close_cases.
    + exists b. split; [exact Hb|]. unfold index_adj_close. rewrite Hnone. reflexivity.
Qed.

Lemma index_filled_column (bars : list Bar) :
  sequence (map index_adj_close (map fill_adj_close bars))
  = Return (map (fun b => nullish (adj_close b) (close b)) bars).
Proof.
  rewrite map_map. apply sequence_map_return. intros b _. reflexivity.
Qed.

(** On the duplicate dataset the helper computes the breadth of the
    substituted prices. *)
Lemma trend_breadth_filled (lookback : nat) (universe : list (list Bar)) :
  trend_breadth lookback (map (map fill_adj_close) universe)
  = let* windows :=
      sequence (map (trailing lookback)
                       (map (map (fun b => nullish (adj_close b) (close b))) universe)) in
    Return (fraction_above windows).
Proof.
  unfold trend_breadth. rewrite map_map.
  rewrite (sequence_map_return _
             (map (fun b => nullish (adj_close b) (close b)))).
  - reflexivity.
  - intros bars _. apply index_filled_column.
Qed.

(** The contract of section 4.1 does what the claim asks on a dataset
    without any [adj_close]: its breadth is the breadth of the duplicate
    dataset. *)
Lemma breadth_with_fallback_close_only (lookback : nat) (universe : list (list Bar)) :
  Forall (Forall (fun b => adj_close b = None)) universe ->
  breadth_with_fallback lookback universe
  = trend_breadth lookback (map (map fill_adj_close) universe).
Proof.
  intros Hnone. rewrite trend_breadth_filled. unfold breadth_with_fallback.
  replace (map (imap (price_with_fallback universe)) universe)
    with (map (map (fun b => nullish (adj_close b) (close b))) universe);
    [reflexivity|].
  symmetry. apply map_ext_in. intros bars Hbars.
  rewrite Forall_forall in Hnone. specialize (Hnone bars).
  rewrite <- list_elem_of_In in Hbars. specialize (Hnone Hbars).
  transitivity (imap (fun _ b => nullish (adj_close b) (close b)) bars);
    [|apply (imap_const (fun b => nullish (adj_close b) (close b)) bars)].
  apply imap_ext. intros t b Hb. unfold price_with_fallback.
  rewrite Forall_forall in Hnone.
  rewrite (Hnone b (list_elem_of_lookup_2 _ _ _ Hb)).
  destruct (date_has_adj_close universe t); reflexivity.
Qed.

Lemma trailing_cases (lookback : nat) (series : list Q) :
  trailing lookback series = Throw InsufficientHistoryError \/
  exists w, trailing lookback series = Return w.
Proof.
  unfold trailing. destruct (length series <? lookback)%nat; eauto.
Qed.

(** On the duplicate dataset the helper never raises [KeyError]: it returns
    a breadth, or reports a history shorter than the lookback. *)
Lemma trend_breadth_filled_cases (lookback : nat) (universe : list (list Bar)) :
  trend_breadth lookback (map (map fill_adj_close) universe)
  = Throw InsufficientHistoryError \/
  exists breadth,
    trend_breadth lookback (map (map fill_adj_close) universe) = Return breadth.
Proof.
  rewrite trend_breadth_filled.
  generalize (map (map (fun b => nullish (adj_close b) (close b))) universe).
  intros prices.
  assert (Hw : sequence (map (trailing lookback) prices)
               = Throw InsufficientHistoryError \/
               exists ws, sequence (map (trailing lookback) prices) = Return ws).
  { induction prices as [|p prices IH]; simpl; [eauto|].
    destruct (trailing_cases lookback p) as [Hp|[w Hp]]; rewrite Hp; simpl; [eauto|].
    destruct IH as [IH|[ws IH]]; rewrite IH; simpl; eauto. }
  destruct Hw as [Hw|[ws Hw]]; rewrite Hw; simpl; eauto.
Qed.

(** C1 (the helper breaks it).  On a dataset whose bars all lack the adjusted
    close, [trend_breadth] raises [KeyError] where the claim has it
    substitute the close: its outcome differs from its outcome on the
    duplicate dataset with adj_close set to close, which is the outcome the
    close-substituting contract of section 4.1 has on the original. *)
Theorem trend_breadth_raises_without_adj_close (lookback : nat)
    (universe : list (list Bar)) (bars : list Bar) (b : Bar) :
  Forall (Forall (fun b => adj_close b = None)) universe ->
  In bars universe -> In b bars ->
  trend_breadth lookback universe = Throw (KeyError (lit "adj_close")) /\
  trend_breadth lookback universe
    <> trend_breadth lookback (map (map fill_adj_close) universe) /\
  breadth_with_fallback lookback universe
    = trend_breadth lookback (map (map fill_adj_close) universe).
Proof.
  intros Hnone Hbars Hb.
  assert (Hb_none : adj_close b = None).
  { rewrite Forall_forall in Hnone.
    specialize (Hnone bars (proj2 (list_elem_of_In _ _) Hbars)).
    rewrite Forall_forall in Hnone.
    exact (Hnone b (proj2 (list_elem_of_In _ _) Hb)). }
  pose proof (trend_breadth_key_error lookback universe bars b Hbars Hb Hb_none)
    as Hraise.
  split; [exact Hraise|]. split.
  - rewrite Hraise.
    destruct (trend_breadth_filled_cases lookback universe) as [H|[q H]];
      rewrite H; discriminate.
  - apply breadth_with_fallback_close_only, Hnone.
Qed.

Lemma trend_breadth_raises_without_adj_close_witness :
  trend_breadth 2 close_only_universe = Throw (KeyError (lit "adj_close")) /\
  trend_breadth 2 close_only_universe
    <> trend_breadth 2 (map (map fill_adj_close) close_only_universe) /\
  breadth_with_fallback 2 close_only_universe
    = trend_breadth 2 (map (map fill_adj_close) close_only_universe).
Proof.
  apply (trend_breadth_raises_without_adj_close 2 close_only_universe
           (map close_only [1; 2; 3]) (close_only 1)).
  - unfold close_only_universe. repeat constructor.
  - left. reflexivity.
  - left. reflexivity.
Defined.

(** The values on that dataset: one of the two symbols is above its trailing
    average. *)
Lemma trend_breadth_close_only_values :
  trend_breadth 2 close_only_universe = Throw (KeyError (lit "adj_close")) /\
  trend_breadth 2 (map (map fill_adj_close) close_only_universe) = Return (1 # 2) /\
  breadth_with_fallback 2 close_only_universe = Return (1 # 2).
Proof. repeat split; vm_compute; reflexivity. Qed.

End RegimeFacts.


(** ** Kelly governance *)

Module KellyFacts.
Import Kelly Lqa.
Local Open Scope Q_scope.



(** The live fraction stays below f* as a number exactly when the alpha kept
    back by eta covers the scaled costs with the opposite sign. *)
Lemma live_fraction_le_unconstrained_iff (eta : Q) (i : KellyInputs) :
  0 < alpha_variance i ->
  (live_fraction eta i <= kelly_unconstrained i <->
   0 <= (1 - eta) * expected_alpha_return i
        + eta * (expected_impact_cost i + expected_turnover_cost i)).
Proof.
  intros Hv. unfold live_fraction, f_EK, kelly_unconstrained, Qdiv.
  rewrite Qmult_assoc.
  rewrite (Qmult_le_r _ _ (/ alpha_variance i)) by (apply Qinv_lt_0_compat, Hv).
  split; intros H; lra.
Qed.





End KellyFacts.

Module EquityFacts.
Import Equity Lra.
Local Open Scope R_scope.

Lemma last_nonempty (b : R) (l : list R) (d d' : R) :
  List.last (b :: l) d = List.last (b :: l) d'.
Proof.
  revert b. induction l as [|c l IH]; intros b; [reflexivity|].
  change (List.last (c :: l) d = List.last (c :: l) d'). apply IH.
Qed.

Lemma last_positive (l : list R) (d : R) :
  0 < d -> Forall (fun e => 0 < e) l -> 0 < List.last l d.
Proof.
  intros Hd Hl. induction Hl as [|x l Hx Hl IH]; [exact Hd|].
  destruct l as [|y l]; [exact Hx|]. exact IH.
Qed.

(** The log returns of a positive curve telescope. *)
Lemma log_returns_telescope (curve : list R) (a : R) :
  Forall (fun e => 0 < e) (a :: curve) ->
  sumR (log_returns (a :: curve)) = ln (List.last (a :: curve) a / a).
Proof.
  revert a. induction curve as [|b rest IH]; intros a Hpos.
  - simpl. inversion Hpos as [|? ? Ha _]; subst. cbv beta in Ha.
    replace (a / a) with 1 by (field; lra). symmetry. apply ln_1.
  - inversion Hpos as [|? ? Ha Hrest]; subst.
    inversion Hrest as [|? ? Hb _]; subst. cbv beta in Ha, Hb.
    change (ln (b / a) + sumR (log_returns (b :: rest))
            = ln (List.last (b :: rest) a / a)).
    rewrite (IH b Hrest), (last_nonempty b rest a b).
    pose proof (last_positive (b :: rest) b Hb Hrest) as Hlast.
    set (final := List.last (b :: rest) b) in *.
    rewrite <- ln_mult.
    + f_equal. field. lra.
    + apply Rdiv_lt_0_compat; assumption.
    + apply Rdiv_lt_0_compat; assumption.
Qed.

Lemma equity_curve_head (equity0 : R) (days : list DayResult) :
  exists rest, equity_curve equity0 days = equity0 :: rest.
Proof. destruct days; simpl; eauto. Qed.

Lemma equity_curve_length (days : list DayResult) (equity0 : R) :
  length (equity_curve equity0 days) = S (length days).
Proof.
  revert equity0. induction days as [|d rest IH]; intros e; simpl; [reflexivity|].
  f_equal. apply IH.
Qed.

(** C3.  On an equity curve built by equity_t = equity_{t-1} + realized_pnl_t
    - realized_cost_t whose points are all positive, the log returns sum to
    ln(equity_final / equity_initial): exactly, hence within 1e-8. *)
Theorem log_returns_sum_to_total (equity0 : R) (days : list DayResult) :
  Forall (fun e => 0 < e) (equity_curve equity0 days) ->
  sumR (log_returns (equity_curve equity0 days))
    = ln (equity_final equity0 days / equity0)
  /\ Rabs (sumR (log_returns (equity_curve equity0 days))
           - ln (equity_final equity0 days / equity0)) <= 1 / 100000000.
Proof.
  intros Hpos. unfold equity_final.
  destruct (equity_curve_head equity0 days) as [rest Hc].
  rewrite Hc in *.
  pose proof (log_returns_telescope rest equity0 Hpos) as Heq.
  split; [exact Heq|].
  rewrite Heq. unfold Rminus. rewrite Rplus_opp_r, Rabs_R0. lra.
Qed.

Lemma log_returns_sum_to_total_witness :
  sumR (log_returns (equity_curve 100 two_days))
    = ln (equity_final 100 two_days / 100)
  /\ Rabs (sumR (log_returns (equity_curve 100 two_days))
           - ln (equity_final 100 two_days / 100)) <= 1 / 100000000.
Proof.
  apply (log_returns_sum_to_total 100 two_days).
  unfold two_days, equity_curve, equity_update; simpl.
  repeat constructor; lra.
Defined.

End EquityFacts.

Module CostFacts.
Import Js Cost Lra.
Local Open Scope R_scope.

Lemma effective_adv_positive (cfg : CostConfig) (o : OrderCandidate) :
  0 < adv_floor cfg -> 0 < effective_adv cfg o.
Proof.
  intros H. unfold effective_adv.
  eapply Rlt_le_trans; [exact H | apply Rmax_r].
Qed.

Lemma effective_spread_nonneg (cfg : CostConfig) (o : OrderCandidate) :
  0 <= default_spread_pct cfg -> 0 <= effective_spread cfg o.
Proof.
  intros H. unfold effective_spread. destruct (spread_pct o) as [s|]; [|exact H].
  eapply Rle_trans; [exact H | apply Rmax_r].
Qed.

Lemma impact_cost_returns (cfg : CostConfig) (o : OrderCandidate) :
  valid_config cfg -> magnitudes o ->
  impact_cost cfg o
    = Return (k cfg * sqrt (quantity o / effective_adv cfg o) * notional o).
Proof.
  intros (Hk & _ & _ & Hfloor & _) [Hq Hn].
  pose proof (effective_adv_positive cfg o Hfloor) as Hadv.
  unfold impact_cost, checked_div.
  destruct (Req_dec_T (effective_adv cfg o) 0) as [Hz|_]; [lra|].
  simpl. unfold checked_sqrt.
  destruct (Rlt_dec (quantity o / effective_adv cfg o) 0) as [Hneg|_]; [|reflexivity].
  exfalso. assert (0 <= quantity o / effective_adv cfg o).
  { apply Rle_mult_inv_pos; assumption. }
  lra.
Qed.

Lemma total_cost_nonneg (cfg : CostConfig) (o : OrderCandidate) :
  valid_config cfg -> magnitudes o ->
  exists c, total_cost cfg o = Return c /\ 0 <= c.
Proof.
  intros Hcfg Hmag. unfold total_cost.
  rewrite (impact_cost_returns cfg o Hcfg Hmag). simpl.
  eexists; split; [reflexivity|].
  destruct Hcfg as (Hk & Hb & Hs & Hfloor & Hsp). destruct Hmag as [Hq Hn].
  pose proof (effective_spread_nonneg cfg o Hsp) as Hspread.
  pose proof (sqrt_pos (quantity o / effective_adv cfg o)) as Hroot.
  assert (0 <= spread_cost cfg o).
  { unfold spread_cost. apply Rmult_le_pos; [lra|exact Hn]. }
  assert (0 <= k cfg * sqrt (quantity o / effective_adv cfg o) * notional o).
  { apply Rmult_le_pos; [apply Rmult_le_pos|]; assumption. }
  assert (0 <= borrow_cost cfg o).
  { unfold borrow_cost. apply Rmult_le_pos; [exact Hb | apply Rmax_l]. }
  lra.
Qed.

(** C5.  Under a valid configuration, [estimate] and [charge] return a
    non-negative real for every order candidate, whatever its average daily
    volume (zero and negative included) and whether or not it has spread
    data: neither the division nor the square root is ever refused. *)
Theorem estimate_and_charge_fail_closed (cfg : CostConfig) (o : OrderCandidate) :
  valid_config cfg -> magnitudes o ->
  (exists c, estimate cfg o = Return c /\ 0 <= c) /\
  (exists c, charge cfg o = Return c /\ 0 <= c).
Proof.
  intros Hcfg Hmag. split; apply total_cost_nonneg; assumption.
Qed.

Lemma estimate_and_charge_fail_closed_witness :
  (exists c, estimate sample_config zero_adv_order = Return c /\ 0 <= c) /\
  (exists c, charge sample_config zero_adv_order = Return c /\ 0 <= c).
Proof.
  apply (estimate_and_charge_fail_closed sample_config zero_adv_order).
  - unfold valid_config, sample_config; simpl. lra.
  - unfold magnitudes, zero_adv_order; simpl. lra.
Defined.

End CostFacts.

Module SizerFacts.
Import Sizer Lqa.
Local Open Scope Q_scope.


Lemma gross_nonneg (w : list Q) : 0 <= gross w.
Proof.
  unfold gross. induction w as [|x w IH]; simpl; [lra|].
  pose proof (Qabs_nonneg x). lra.
Qed.





(** Subtracting a projection does not keep the caps by itself, which is
    why they are applied last: under one sector of three names and caps of
    1, the capped vector (1, 0, 0) is neutralised to (2/3, -1/3, -1/3), of
    gross exposure 4/3. *)
Lemma neutralize_can_break_caps :
  ~ within_caps one_sector
      (neutralize (factor_basis one_sector) (cap_weights one_sector [1; 0; 0])).
Proof.
  intros [_ Hgross]. vm_compute in Hgross. apply Hgross. reflexivity.
Qed.

(** Rescaling keeps a vector orthogonal to every factor it was orthogonal
    to: only the per-name clip can move a neutralised vector off
    neutrality. *)
Lemma dot_scale (s : Q) (w f : list Q) :
  dot (map (fun x => x * s) w) f == dot w f * s.
Proof.
  unfold dot. revert f. induction w as [|x w IH]; intros [|l f]; simpl;
    try ring.
  rewrite IH. ring.
Qed.

Lemma rescale_gross_neutral (cap : Q) (w f : list Q) :
  dot w f == 0 -> dot (rescale_gross cap w) f == 0.
Proof.
  intros Hdot. unfold rescale_gross.
  destruct (Qle_bool (gross w) cap); [exact Hdot|].
  rewrite dot_scale, Hdot. ring.
Qed.



End SizerFacts.

Module WatchlistFacts.
Import JsString Js Watchlist JsFacts.

Section Route.

Variable E : Type.
Variable Quote : Type.
Variable yahoo_quote : str -> Completion E Quote.

Lemma fetchQuote_never_rejects (symbol : str) :
  fetchQuote E Quote yahoo_quote symbol
  = Return (quote_or_null E Quote yahoo_quote symbol).
Proof.
  unfold fetchQuote, quote_or_null.
  destruct (yahoo_quote symbol); reflexivity.
Qed.

Lemma pair_by_index {A B} (g : A -> B) (d : B) (l : list A) :
  imap (fun idx x => (x, nullish (map g l !! idx) d)) l
  = map (fun x => (x, g x)) l.
Proof.
  transitivity (imap (fun _ x => (x, g x)) l);
    [|apply (imap_const (fun x => (x, g x)) l)].
  apply imap_ext. intros i x Hx. simpl.
  change (map g l) with (g <$> l).
  rewrite list_lookup_fmap, Hx. reflexivity.
Qed.

Lemma GET_with_symbols (params : list (str * str)) (c : ascii) (r : str) :
  get params (lit "symbols") = Some (c :: r) ->
  GET E Quote yahoo_quote params
  = Return {| status := 200;
              body := QuotesBody Quote
                (map (fun s => (s, quote_or_null E Quote yahoo_quote s))
                     (parse_symbols (c :: r))) |}.
Proof.
  intros Hget. unfold GET. rewrite Hget. simpl falsy. cbv iota.
  rewrite (sequence_map_return _ (quote_or_null E Quote yahoo_quote))
    by (intros; apply fetchQuote_never_rejects).
  simpl. rewrite pair_by_index. reflexivity.
Qed.

(** C9, amended.  The watchlist route never throws; its status is 400 exactly
    when the symbols parameter is absent or empty; otherwise the status is
    200 and the payload has one entry per non-empty trimmed symbol, in
    request order, pairing the symbol with its quote, null when the fetch
    failed. *)
Theorem GET_status_and_payload (params : list (str * str)) :
  (exists resp,
      GET E Quote yahoo_quote params = Return resp /\
      (status Quote resp = 400 <->
       get params (lit "symbols") = None \/ get params (lit "symbols") = Some []))
  /\ match get params (lit "symbols") with
     | Some (c :: r) =>
         GET E Quote yahoo_quote params
         = Return {| status := 200;
                     body := QuotesBody Quote
                       (map (fun s => (s, quote_or_null E Quote yahoo_quote s))
                            (parse_symbols (c :: r))) |}
     | _ => GET E Quote yahoo_quote params = Return (bad_request Quote)
     end.
Proof.
  destruct (get params (lit "symbols")) as [[|c r]|] eqn:Hget.
  - assert (HG : GET E Quote yahoo_quote params = Return (bad_request Quote)).
    { unfold GET. rewrite Hget. reflexivity. }
    split; [|exact HG]. eexists; split; [exact HG|]. simpl. tauto.
  - pose proof (GET_with_symbols params c r Hget) as HG.
    split; [|exact HG]. eexists; split; [exact HG|]. simpl.
    split; [discriminate|]. intros [H|H]; discriminate.
  - assert (HG : GET E Quote yahoo_quote params = Return (bad_request Quote)).
    { unfold GET. rewrite Hget. reflexivity. }
    split; [|exact HG]. eexists; split; [exact HG|]. simpl. tauto.
Qed.

End Route.

Lemma GET_status_and_payload_witness :
  GET unit unit (fun _ => Throw tt) [(lit "symbols", lit "AAPL, ,MSFT")]
  = Return {| status := 200;
              body := QuotesBody unit [ (lit "AAPL", QuoteNull unit);
                                        (lit "MSFT", QuoteNull unit) ] |}.
Proof.
  exact (proj2 (GET_status_and_payload unit unit (fun _ => Throw tt)
                  [(lit "symbols", lit "AAPL, ,MSFT")])).
Defined.

(** C9 as stated fails on [?symbols=]: the parameter is present, and the
    status is 400. *)
Lemma GET_empty_symbols_is_400 :
  get [(lit "symbols", [])] (lit "symbols") <> None /\
  GET unit unit (fun _ => Throw tt) [(lit "symbols", [])]
  = Return (bad_request unit).
Proof. split; [discriminate | reflexivity]. Qed.

End WatchlistFacts.

Module AlpacaFacts.
Import JsString Js Alpaca.

Section Snapshot.

Variable E : Type.
Variables Account Position Order Clock : Type.

Abbreviation Sdk := (Alpaca.Sdk E Account Position Order Clock).
Abbreviation fetchAlpacaSnapshot :=
  (Alpaca.fetchAlpacaSnapshot E Account Position Order Clock).

Lemma getAlpacaClient_unset (env : gmap str str) :
  env !! lit "ALPACA_API_KEY_ID" = None \/
  env !! lit "ALPACA_API_SECRET_KEY" = None ->
  getAlpacaClient env = None.
Proof.
  intros [H|H]; unfold getAlpacaClient; rewrite H; simpl falsy; [reflexivity|].
  rewrite orb_true_r. reflexivity.
Qed.

Lemma getAlpacaClient_present (env : gmap str str) (key secret : str) :
  env !! lit "ALPACA_API_KEY_ID" = Some key -> key <> [] ->
  env !! lit "ALPACA_API_SECRET_KEY" = Some secret -> secret <> [] ->
  exists client, getAlpacaClient env = Some client /\
                 keyId client = key /\ secretKey client = secret.
Proof.
  intros Hk Hk0 Hs Hs0. unfold getAlpacaClient. rewrite Hk, Hs.
  destruct key as [|kc kr]; [congruence|].
  destruct secret as [|sc sr]; [congruence|].
  simpl. eexists; split; [reflexivity|]. simpl. split; reflexivity.
Qed.

Lemma snapshot_with_client (env : gmap str str) (sdk : Sdk)
    (client : AlpacaConfig) :
  getAlpacaClient env = Some client ->
  fetchAlpacaSnapshot env sdk
  = Return (snapshot_of E Account Position Order Clock sdk client).
Proof.
  intros Hc. unfold Alpaca.fetchAlpacaSnapshot, snapshot_of. rewrite Hc.
  destruct (getAccount _ _ _ _ _ sdk client);
    destruct (getPositions _ _ _ _ _ sdk client);
    destruct (getOrders _ _ _ _ _ sdk client open_orders_query);
    destruct (getClock _ _ _ _ _ sdk client); reflexivity.
Qed.

(** C10.  With either credential unset the snapshot is the empty one and
    nothing is thrown; with both set and non-empty every field is the result
    of its own broker call, replaced by null or the empty list when that call
    failed, whatever the other three calls did. *)
Theorem fetchAlpacaSnapshot_never_throws (env : gmap str str) (sdk : Sdk) :
  (env !! lit "ALPACA_API_KEY_ID" = None \/
   env !! lit "ALPACA_API_SECRET_KEY" = None ->
   fetchAlpacaSnapshot env sdk
   = Return {| account := None; positions := []; openOrders := [];
               clock := None |})
  /\ (forall key secret,
        env !! lit "ALPACA_API_KEY_ID" = Some key -> key <> [] ->
        env !! lit "ALPACA_API_SECRET_KEY" = Some secret -> secret <> [] ->
        exists client,
          getAlpacaClient env = Some client /\
          keyId client = key /\ secretKey client = secret /\
          fetchAlpacaSnapshot env sdk
          = Return
              {| account := value_or E Some None (getAccount _ _ _ _ _ sdk client);
                 positions := value_or E (fun x => x) [] (getPositions _ _ _ _ _ sdk client);
                 openOrders :=
                   value_or E (fun x => x) [] (getOrders _ _ _ _ _ sdk client open_orders_query);
                 clock := value_or E Some None (getClock _ _ _ _ _ sdk client) |}).
Proof.
  split.
  - intros Hunset. unfold Alpaca.fetchAlpacaSnapshot.
    rewrite (getAlpacaClient_unset env Hunset). reflexivity.
  - intros key secret Hk Hk0 Hs Hs0.
    destruct (getAlpacaClient_present env key secret Hk Hk0 Hs Hs0)
      as (client & Hc & Hkey & Hsecret).
    exists client. repeat split; try assumption.
    apply (snapshot_with_client env sdk client Hc).
Qed.

End Snapshot.

Lemma fetchAlpacaSnapshot_never_throws_witness :
  Alpaca.fetchAlpacaSnapshot unit unit unit unit unit ∅ failing_sdk
  = Return {| account := None; positions := []; openOrders := []; clock := None |}
  /\ exists client,
       getAlpacaClient paper_env = Some client /\
       keyId client = lit "PK1" /\ secretKey client = lit "s3" /\
       Alpaca.fetchAlpacaSnapshot unit unit unit unit unit paper_env clockless_sdk
       = Return {| account := Some tt; positions := [tt]; openOrders := [];
                   clock := None |}.
Proof.
  split.
  - apply (proj1 (fetchAlpacaSnapshot_never_throws unit unit unit unit unit
                    ∅ failing_sdk)).
    left. reflexivity.
  - apply (proj2 (fetchAlpacaSnapshot_never_throws unit unit unit unit unit
                    paper_env clockless_sdk) (lit "PK1") (lit "s3")).
    + vm_compute. reflexivity.
    + discriminate.
    + vm_compute. reflexivity.
    + discriminate.
Defined.

End AlpacaFacts.

(** ** CSV readers *)

Module CsvFacts.
Import JsString Js Csv JsStringFacts.

Section Readers.

Variable E : Type.
Variable num : Type.
Variable NaN : num.
Variable parse_numeric : str -> num.
Variable resolveRepoPath : str -> str.

Abbreviation Number := (Csv.Number num NaN parse_numeric).
Abbreviation readTradesCsv :=
  (Csv.readTradesCsv E num NaN parse_numeric resolveRepoPath).
Abbreviation readLivePnl :=
  (Csv.readLivePnl E num NaN parse_numeric resolveRepoPath).

(** After the loop a key holds the value of the last column named so. *)
Lemma forEach_assign_lookup (headers values : list str) (idx : nat)
    (record : gmap str str) (key : str) :
  forEach_assign headers idx values record !! key
  = match column_from headers idx key with
    | Some i => Some (nullish (values !! i) [])
    | None => record !! key
    end.
Proof.
  revert idx record. induction headers as [|h rest IH]; intros idx record;
    [reflexivity|].
  simpl. rewrite IH.
  destruct (column_from rest (S idx) key) as [i|]; [reflexivity|].
  rewrite lookup_insert. unfold bool_decide.
  destruct (decide_rel eq h key); [|reflexivity].
  rewrite decide_True by assumption. reflexivity.
Qed.

Lemma row_record_lookup (headers : list str) (row key : str) :
  row_record headers row !! key = cell headers row key.
Proof.
  unfold row_record, cell, field. rewrite forEach_assign_lookup.
  destruct (column_from headers 0 key); [reflexivity | apply lookup_empty].
Qed.

Lemma trade_of_record_by_column (headers : list str) (row : str) :
  trade_of_record num NaN parse_numeric (row_record headers row)
  = trade_row num NaN parse_numeric headers row.
Proof.
  unfold trade_of_record, trade_row. rewrite !row_record_lookup. reflexivity.
Qed.

Lemma pnl_of_record_by_position (row : str) :
  pnl_of_record num NaN parse_numeric
    (row_record (split_on comma live_pnl_header) row)
  = pnl_row num NaN parse_numeric row.
Proof.
  unfold pnl_of_record, pnl_row. rewrite !row_record_lookup. unfold cell.
  replace (column_from (split_on comma live_pnl_header) 0 (lit "timestamp"))
    with (Some 0) by (vm_compute; reflexivity).
  replace (column_from (split_on comma live_pnl_header) 0 (lit "equity"))
    with (Some 1) by (vm_compute; reflexivity).
  replace (column_from (split_on comma live_pnl_header) 0 (lit "cash"))
    with (Some 2) by (vm_compute; reflexivity).
  reflexivity.
Qed.

(** White space at the end of a row with three fields changes no record:
    it can only follow the third or a later field, and [Number] strips it. *)
Lemma pnl_row_trimEnd (row : str) :
  3 <= length (split_on comma row) ->
  pnl_row num NaN parse_numeric (trimEnd row) = pnl_row num NaN parse_numeric row.
Proof.
  intros Hlen. unfold pnl_row, field. rewrite split_on_trimEnd.
  destruct (split_on comma row) as [|f0 [|f1 [|f2 rest]]]; simpl in Hlen; try lia.
  destruct rest as [|f3 rest]; [|reflexivity].
  simpl. unfold Csv.Number. rewrite trim_trimEnd. reflexivity.
Qed.

Lemma map_pnl_row_trimEnd (rows : list str) :
  Forall (data_row 3) rows ->
  map (pnl_row num NaN parse_numeric) (map_last trimEnd rows)
  = map (pnl_row num NaN parse_numeric) rows.
Proof.
  intros Hrows. induction Hrows as [|r rows [_ Hr] Hrows IH]; [reflexivity|].
  destruct rows as [|r' rows].
  - simpl. rewrite (pnl_row_trimEnd r Hr). reflexivity.
  - rewrite map_last_cons.
    change (pnl_row num NaN parse_numeric r
              :: map (pnl_row num NaN parse_numeric) (map_last trimEnd (r' :: rows))
            = pnl_row num NaN parse_numeric r
              :: map (pnl_row num NaN parse_numeric) (r' :: rows)).
    rewrite IH. reflexivity.
Qed.

Lemma lines_of_live_pnl_csv (eol : str) (rows : list str) (tail : str) :
  is_line_break eol ->
  Forall (data_row 3) rows ->
  forallb is_ws tail = true ->
  split_lines (trim (csv_text eol live_pnl_header rows tail))
  = live_pnl_header :: map_last trimEnd rows.
Proof.
  intros Heol Hrows Htail. unfold trim, csv_text.
  assert (Hstart : forall rest,
             trimStart (live_pnl_header ++ rest) = live_pnl_header ++ rest)
    by reflexivity.
  change (join_lines eol (live_pnl_header :: rows))
    with (live_pnl_header ++ concat (map (fun r => eol ++ r) rows)).
  rewrite <- app_assoc, Hstart, app_assoc.
  change (live_pnl_header ++ concat (map (fun r => eol ++ r) rows))
    with (join_lines eol (live_pnl_header :: rows)).
  rewrite trimEnd_join; [| |exact Htail].
  - assert (Hlast : map_last trimEnd (live_pnl_header :: rows)
                    = live_pnl_header :: map_last trimEnd rows).
    { destruct rows; reflexivity. }
    rewrite Hlast. apply split_lines_join; [exact Heol|].
    constructor; [reflexivity|].
    apply map_last_Forall; [intros x; apply forallb_trimEnd|].
    eapply Forall_impl; [exact Hrows|]. intros r [Hr _]. exact Hr.
  - constructor; [reflexivity|].
    eapply Forall_impl; [exact Hrows|]. intros r [_ Hr]. cbv beta.
    apply two_fields_not_blank. lia.
Qed.

(** C6.  On a CSV text made of the header timestamp,equity,cash and n data
    rows (lines of at least three fields), possibly followed by blank space,
    [readLivePnl] returns n records in row order; record i carries the first
    field of row i as timestamp and the numeric readings of its second and
    third fields as equity and cash. *)
Theorem readLivePnl_reads_rows (readFile : str -> Completion E str)
    (file eol : str) (rows : list str) (tail : str) :
  is_line_break eol ->
  Forall (data_row 3) rows ->
  forallb is_ws tail = true ->
  readFile (resolveRepoPath file)
  = Return (csv_text eol live_pnl_header rows tail) ->
  readLivePnl readFile file
  = Return (map (fun row =>
                   {| timestamp := Some (field 0 row);
                      equity := Number (Some (field 1 row));
                      cash := Number (Some (field 2 row)) |}) rows).
Proof.
  intros Heol Hrows Htail Hread. unfold Csv.readLivePnl. rewrite Hread.
  cbv beta iota delta [bind].
  rewrite (lines_of_live_pnl_csv eol rows tail Heol Hrows Htail).
  cbv beta iota delta [destructure nullish try_catch].
  change (falsy (Some live_pnl_header)) with false. cbv iota.
  f_equal.
  transitivity (map (pnl_row num NaN parse_numeric) (map_last trimEnd rows)).
  - apply map_ext. intros row. apply pnl_of_record_by_position.
  - exact (map_pnl_row_trimEnd rows Hrows).
Qed.

(** C8.  When the file cannot be read, [readTradesCsv] and [readLivePnl]
    return the empty list and throw nothing; on a readable trades file every
    line after the header becomes one record of date, symbol, quantity,
    price, notional and sleeve, read by column name, the three numeric
    fields through [Number]. *)
Theorem readers_return_empty_on_read_failure (type_error : E)
    (readFile : str -> Completion E str) (file : str) :
  (forall e, readFile (resolveRepoPath file) = Throw e ->
     readTradesCsv type_error readFile file = Return [] /\
     readLivePnl readFile file = Return [])
  /\ (forall raw, readFile (resolveRepoPath file) = Return raw ->
        exists header rows,
          split_lines (trim raw) = header :: rows /\
          readTradesCsv type_error readFile file
          = Return (map (trade_row num NaN parse_numeric (split_on comma header))
                        rows)).
Proof.
  split.
  - intros e He. unfold Csv.readTradesCsv, Csv.readLivePnl. rewrite He.
    split; reflexivity.
  - intros raw Hraw. unfold Csv.readTradesCsv. rewrite Hraw. simpl bind.
    destruct (split_lines (trim raw)) as [|header rows] eqn:Hlines.
    { exfalso. exact (split_lines_nonempty _ Hlines). }
    exists header, rows. split; [reflexivity|]. simpl.
    f_equal. apply map_ext. intros row. apply trade_of_record_by_column.
Qed.

End Readers.

Lemma readLivePnl_reads_rows_witness :
  Csv.readLivePnl unit nat 0 (@length ascii) (fun p => p)
    (fun _ => Return (csv_text [LF] live_pnl_header sample_rows [LF]))
    (lit "reports/live_pnl.csv")
  = Return (map (fun row =>
                   {| timestamp := Some (field 0 row);
                      equity := Csv.Number nat 0 (@length ascii) (Some (field 1 row));
                      cash := Csv.Number nat 0 (@length ascii) (Some (field 2 row)) |})
                sample_rows).
Proof.
  apply (readLivePnl_reads_rows unit nat 0 (@length ascii) (fun p => p)
           (fun _ => Return (csv_text [LF] live_pnl_header sample_rows [LF]))
           (lit "reports/live_pnl.csv") [LF] sample_rows [LF]).
  - left. reflexivity.
  - unfold sample_rows, data_row.
    repeat constructor; vm_compute; lia.
  - reflexivity.
  - reflexivity.
Defined.

Lemma readers_return_empty_on_read_failure_witness :
  (Csv.readTradesCsv unit nat 0 (@length ascii) (fun p => p) tt
     (fun _ => Throw tt) (lit "reports/trades.csv") = Return [] /\
   Csv.readLivePnl unit nat 0 (@length ascii) (fun p => p)
     (fun _ => Throw tt) (lit "reports/trades.csv") = Return [])
  /\ exists header rows,
       split_lines (trim sample_trades) = header :: rows /\
       Csv.readTradesCsv unit nat 0 (@length ascii) (fun p => p) tt
         (fun _ => Return sample_trades) (lit "reports/trades.csv")
       = Return (map (trade_row nat 0 (@length ascii) (split_on comma header)) rows).
Proof.
  split.
  - apply (proj1 (readers_return_empty_on_read_failure unit nat 0 (@length ascii)
             (fun p => p) tt (fun _ => Throw tt) (lit "reports/trades.csv")) tt).
    reflexivity.
  - apply (proj2 (readers_return_empty_on_read_failure unit nat 0 (@length ascii)
             (fun p => p) tt (fun _ => Return sample_trades)
             (lit "reports/trades.csv")) sample_trades).
    reflexivity.
Defined.

End CsvFacts.

(** * Proofs for the rest of the data layer *)

Module JsArrayFacts.
Import JsString JsArray.

Lemma rev_is_reverse {A} (l : list A) : rev l = reverse l.
Proof. unfold reverse. apply rev_alt. Qed.

Lemma slice_last_length {A} (n : nat) (a : list A) :
  length (slice_last n a) = Nat.min n (length a).
Proof. unfold slice_last. rewrite length_drop. lia. Qed.

(** After [slice(-n).reverse()] position [i] holds the element [i] places
    before the end. *)
Lemma recent_lookup {A} (n i : nat) (a : list A) :
  i < Nat.min n (length a) ->
  rev (slice_last n a) !! i = a !! (length a - 1 - i).
Proof.
  intros Hi. rewrite rev_is_reverse.
  rewrite reverse_lookup by (rewrite slice_last_length; exact Hi).
  rewrite slice_last_length. unfold slice_last. rewrite lookup_drop.
  f_equal. lia.
Qed.

End JsArrayFacts.

Module RepoFacts.
Import JsString Js JsArray Csv Repo JsStringFacts JsArrayFacts.
Local Set Default Proof Using "Type".

Lemma trimEnd_head (c : ascii) (r : str) :
  is_ws c = false -> trimEnd (c :: r) = c :: trimEnd r.
Proof. intros Hc. apply trimEnd_cons_non_ws. rewrite Hc. reflexivity. Qed.

(** A trimmed string is empty or starts with a character that is no white
    space. *)
Lemma trim_head (s : str) :
  trim s = [] \/ exists c r, trim s = c :: r /\ is_ws c = false.
Proof.
  unfold trim. induction s as [|c s IH]; [left; reflexivity|].
  destruct (is_ws c) eqn:Hc.
  - rewrite (trimStart_ws c s Hc). exact IH.
  - rewrite (trimStart_non_ws c s Hc), (trimEnd_head c s Hc). right. eauto.
Qed.

Lemma cons_head_first (c : ascii) (ls : list str) :
  exists f rest, cons_head c ls = (c :: f) :: rest.
Proof. destruct ls; simpl; eauto. Qed.

(** The first line of a trimmed text is empty only when the text is. *)
Lemma blank_first_line (s : str) (rows : list str) :
  split_lines (trim s) = [] :: rows -> rows = [].
Proof.
  destruct (trim_head s) as [Hs|(c & r & Hs & Hc)]; rewrite Hs.
  - simpl. congruence.
  - assert (Hlf : ascii_eqb c LF = false).
    { destruct (ascii_eqb c LF) eqn:H; [|reflexivity].
      apply ascii_eqb_eq in H. subst c. discriminate Hc. }
    assert (Hcr : ascii_eqb c CR = false).
    { destruct (ascii_eqb c CR) eqn:H; [|reflexivity].
      apply ascii_eqb_eq in H. subst c. discriminate Hc. }
    destruct r as [|c' r'].
    + simpl. rewrite Hlf. discriminate.
    + rewrite (split_lines_cons c c' r' Hlf Hcr).
      destruct (cons_head_first c (split_lines (c' :: r'))) as (f & rest & ->).
      discriminate.
Qed.

Section Summary.

Variable E : Type.
Variable num : Type.
Variable NaN : num.
Variable parse_numeric : str -> num.
Variable resolveRepoPath : str -> str.
Variable Yaml : Type.
Variable yaml_parse : str -> Completion E Yaml.
Variables Account Position Order Clock : Type.

Abbreviation readLivePnl :=
  (Csv.readLivePnl E num NaN parse_numeric resolveRepoPath).
Abbreviation readTradesCsv :=
  (Csv.readTradesCsv E num NaN parse_numeric resolveRepoPath).
Abbreviation latestLivePnl :=
  (Repo.latestLivePnl E num NaN parse_numeric resolveRepoPath).
Abbreviation readSummary :=
  (Repo.readSummary E num NaN parse_numeric resolveRepoPath Yaml yaml_parse
     Account Position Order Clock).

Lemma pnl_of_record_by_column (headers : list str) (row : str) :
  pnl_of_record num NaN parse_numeric (row_record headers row)
  = pnl_by_column num NaN parse_numeric headers row.
Proof.
  unfold pnl_of_record, pnl_by_column.
  rewrite !CsvFacts.row_record_lookup. reflexivity.
Qed.

(** X1.  On every readable file [readLivePnl] returns one record per line
    after the first line of the trimmed text (the guard on an empty header
    drops nothing), each read by column name; a file whose header lacks the
    equity or cash column reads that field as [Number("0")]. *)
Theorem readLivePnl_reads_every_line (readFile : str -> Completion E str)
    (file raw : str) :
  readFile (resolveRepoPath file) = Return raw ->
  exists header rows,
    split_lines (trim raw) = header :: rows /\
    readLivePnl readFile file
    = Return (map (pnl_by_column num NaN parse_numeric (split_on comma header))
                  rows).
Proof.
  intros Hraw. unfold Csv.readLivePnl. rewrite Hraw.
  cbv beta iota delta [bind].
  destruct (split_lines (trim raw)) as [|header rows] eqn:Hlines.
  { exfalso. exact (split_lines_nonempty _ Hlines). }
  exists header, rows. split; [reflexivity|].
  cbv beta iota delta [destructure try_catch].
  destruct header as [|c h].
  - rewrite (blank_first_line raw rows Hlines). reflexivity.
  - cbv beta iota delta [falsy nullish]. f_equal.
    apply map_ext. intros row. apply pnl_of_record_by_column.
Qed.

Lemma readLivePnl_returns (readFile : str -> Completion E str) (file : str) :
  exists rows, readLivePnl readFile file = Return rows.
Proof.
  unfold Csv.readLivePnl.
  destruct (readFile (resolveRepoPath file)) as [raw|e]; [|simpl; eauto].
  cbv beta iota delta [bind].
  destruct (destructure (split_lines (trim raw))) as [headerLine rows].
  destruct (falsy headerLine); simpl; eauto.
Qed.

Lemma readTradesCsv_returns (type_error : E) (readFile : str -> Completion E str)
    (file : str) :
  exists trades, readTradesCsv type_error readFile file = Return trades.
Proof.
  unfold Csv.readTradesCsv.
  destruct (readFile (resolveRepoPath file)) as [raw|e]; [|simpl; eauto].
  cbv beta iota delta [bind].
  destruct (split_lines (trim raw)) as [|header rows] eqn:Hlines.
  { exfalso. exact (split_lines_nonempty _ Hlines). }
  simpl. eauto.
Qed.

Lemma latest_of_rows {A} (rows : list A) :
  match length rows with
  | O => JsNull
  | S _ => index rows (length rows - 1)
  end
  = match last rows with
    | Some r => JsValue r
    | None => JsNull
    end.
Proof.
  rewrite last_lookup. unfold index.
  destruct rows as [|r rows]; [reflexivity|].
  simpl length. replace (S (length rows) - 1) with (length rows) by lia.
  simpl pred.
  destruct ((r :: rows) !! length rows) eqn:H; [reflexivity|].
  apply lookup_ge_None in H. simpl in H. lia.
Qed.

Lemma latestLivePnl_returns (readFile : str -> Completion E str) :
  exists rows,
    readLivePnl readFile (lit "reports/live_pnl.csv") = Return rows /\
    latestLivePnl readFile
    = Return (match last rows with
              | Some r => JsValue r
              | None => JsNull
              end).
Proof.
  destruct (readLivePnl_returns readFile (lit "reports/live_pnl.csv"))
    as [rows Hrows].
  exists rows. split; [exact Hrows|].
  unfold Repo.latestLivePnl. rewrite Hrows. cbv beta iota delta [bind].
  rewrite latest_of_rows. reflexivity.
Qed.

(** X2.  [latestLivePnl] never throws and never yields undefined: it returns
    null when the reader has no rows (an unreadable or empty file included)
    and the last record otherwise. *)
Theorem latestLivePnl_is_last_row (readFile : str -> Completion E str) :
  exists rows,
    readLivePnl readFile (lit "reports/live_pnl.csv") = Return rows /\
    latestLivePnl readFile
    = Return (match last rows with
              | Some r => JsValue r
              | None => JsNull
              end).
Proof. exact (latestLivePnl_returns readFile). Qed.

Lemma readLivePnl_on_csv (readFile : str -> Completion E str)
    (file eol : str) (rows : list str) (tail : str) :
  is_line_break eol ->
  Forall (data_row 3) rows ->
  forallb is_ws tail = true ->
  readFile (resolveRepoPath file)
  = Return (csv_text eol live_pnl_header rows tail) ->
  readLivePnl readFile file = Return (map (pnl_row num NaN parse_numeric) rows).
Proof.
  intros Heol Hrows Htail Hread. unfold Csv.readLivePnl. rewrite Hread.
  cbv beta iota delta [bind].
  rewrite (CsvFacts.lines_of_live_pnl_csv eol rows tail Heol Hrows Htail).
  cbv beta iota delta [destructure nullish try_catch].
  change (falsy (Some live_pnl_header)) with false. cbv iota.
  f_equal.
  transitivity (map (pnl_row num NaN parse_numeric) (map_last trimEnd rows)).
  - apply map_ext. intros row. apply CsvFacts.pnl_of_record_by_position.
  - exact (CsvFacts.map_pnl_row_trimEnd num NaN parse_numeric rows Hrows).
Qed.

(** X3.  On a live P&L file made of the header and at least one data row,
    [latestLivePnl] returns the record of the last row. *)
Theorem latestLivePnl_on_csv (readFile : str -> Completion E str)
    (eol : str) (rows : list str) (final tail : str) :
  is_line_break eol ->
  Forall (data_row 3) (rows ++ [final]) ->
  forallb is_ws tail = true ->
  readFile (resolveRepoPath (lit "reports/live_pnl.csv"))
  = Return (csv_text eol live_pnl_header (rows ++ [final]) tail) ->
  latestLivePnl readFile = Return (JsValue (pnl_row num NaN parse_numeric final)).
Proof.
  intros Heol Hrows Htail Hread.
  unfold Repo.latestLivePnl.
  rewrite (readLivePnl_on_csv readFile _ eol (rows ++ [final]) tail
             Heol Hrows Htail Hread).
  cbv beta iota delta [bind]. rewrite latest_of_rows.
  rewrite map_app. simpl map.
  change (map (pnl_row num NaN parse_numeric) rows)
    with (pnl_row num NaN parse_numeric <$> rows).
  rewrite last_snoc. reflexivity.
Qed.

(** X6.  [readSummary] never throws, whatever the files and the broker do;
    its tradeCount is the number of trades read, and recentTrades holds the
    last five of them (all when there are fewer), most recent first. *)
Theorem readSummary_recent_trades (type_error : E)
    (readFile : str -> Completion E str) (env : gmap str str)
    (sdk : Alpaca.Sdk E Account Position Order Clock) :
  exists trades summary,
    readTradesCsv type_error readFile (lit "reports/trades.csv") = Return trades /\
    readSummary type_error readFile env sdk = Return summary /\
    tradeCount _ _ _ _ _ _ summary = length trades /\
    length (recentTrades _ _ _ _ _ _ summary) = Nat.min 5 (length trades) /\
    forall i, i < Nat.min 5 (length trades) ->
      recentTrades _ _ _ _ _ _ summary !! i = trades !! (length trades - 1 - i).
Proof.
  destruct (readTradesCsv_returns type_error readFile (lit "reports/trades.csv"))
    as [trades Htrades].
  destruct (latestLivePnl_returns readFile) as (rows & _ & Hlatest).
  assert (Hsnap : exists snap,
             Alpaca.fetchAlpacaSnapshot E Account Position Order Clock env sdk
             = Return snap).
  { destruct (Alpaca.getAlpacaClient env) as [client|] eqn:Hc.
    - rewrite (AlpacaFacts.snapshot_with_client _ _ _ _ _ env sdk client Hc). eauto.
    - unfold Alpaca.fetchAlpacaSnapshot. rewrite Hc. eauto. }
  destruct Hsnap as [snap Hsnap].
  assert (Hcfg : exists cfg,
             readYamlConfig E resolveRepoPath Yaml yaml_parse readFile
               (lit "src/quantbobe/config/default.yaml") = Return cfg).
  { unfold readYamlConfig.
    destruct (readFile _) as [raw|e]; [|simpl; eauto].
    cbv beta iota delta [bind].
    destruct (yaml_parse raw); simpl; eauto. }
  destruct Hcfg as [cfg Hcfg].
  exists trades. eexists. split; [exact Htrades|]. split.
  - unfold Repo.readSummary. rewrite Hcfg. cbv beta iota delta [bind].
    rewrite Htrades. cbv beta iota delta [bind].
    rewrite Hsnap. cbv beta iota delta [bind].
    rewrite Hlatest. cbv beta iota delta [bind]. reflexivity.
  - cbv beta iota delta [tradeCount recentTrades].
    split; [reflexivity|]. split.
    + rewrite length_rev. apply slice_last_length.
    + intros i Hi. apply recent_lookup, Hi.
Qed.

Lemma trimStart_app_ws (w s : str) :
  forallb is_ws w = true -> trimStart (w ++ s) = trimStart s.
Proof.
  induction w as [|c w IH]; [reflexivity|].
  simpl. intros H. apply andb_true_iff in H as [Hc Hw]. rewrite Hc. exact (IH Hw).
Qed.

Lemma trimStart_app_non_ws (s w : str) :
  forallb is_ws s = false -> trimStart (s ++ w) = trimStart s ++ w.
Proof.
  induction s as [|c s IH]; [discriminate|].
  simpl. destruct (is_ws c); [exact IH | reflexivity].
Qed.

(** White space around a text does not survive [trim]. *)
Lemma trim_padding (before s after : str) :
  forallb is_ws before = true -> forallb is_ws after = true ->
  trim (before ++ s ++ after) = trim s.
Proof.
  intros Hb Ha. unfold trim. rewrite (trimStart_app_ws before _ Hb).
  destruct (forallb is_ws s) eqn:Hs.
  - rewrite (trimStart_all_ws s Hs).
    rewrite trimStart_all_ws by (rewrite forallb_app, Hs, Ha; reflexivity).
    reflexivity.
  - rewrite (trimStart_app_non_ws s after Hs). apply trimEnd_app_ws, Ha.
Qed.

(** X4.  White space before and after the file content (blank lines, a
    missing or doubled final line break) changes nothing in what
    [readTradesCsv] and [readLivePnl] return. *)
Theorem readers_ignore_padding (type_error : E)
    (readFile padded : str -> Completion E str) (file raw before after : str) :
  forallb is_ws before = true -> forallb is_ws after = true ->
  readFile (resolveRepoPath file) = Return raw ->
  padded (resolveRepoPath file) = Return (before ++ raw ++ after) ->
  readTradesCsv type_error padded file = readTradesCsv type_error readFile file /\
  readLivePnl padded file = readLivePnl readFile file.
Proof.
  intros Hb Ha Hraw Hpadded.
  unfold Csv.readTradesCsv, Csv.readLivePnl. rewrite Hraw, Hpadded.
  cbv beta iota delta [bind]. rewrite (trim_padding before raw after Hb Ha).
  split; reflexivity.
Qed.

Lemma column_from_named (headers : list str) (idx : nat) (key : str) :
  In key headers -> exists i, column_from headers idx key = Some i.
Proof.
  revert idx. induction headers as [|h rest IH]; intros idx; [intros []|].
  intros Hin. simpl.
  destruct (column_from rest (S idx) key) as [i|] eqn:Hrest; [eauto|].
  destruct Hin as [->|Hin].
  - rewrite bool_decide_eq_true_2 by reflexivity. eauto.
  - destruct (IH (S idx) Hin) as [i Hi]. congruence.
Qed.

(** X21.  On a readable file whose header names both the equity and the cash
    column, the two live P&L readers of the repository return the same
    records; they agree on an unreadable file as well. *)
Theorem readLivePnlCsv_agrees (type_error : E)
    (readFile : str -> Completion E str) (file : str) :
  (forall raw, readFile (resolveRepoPath file) = Return raw ->
     In (lit "equity") (header_names raw) /\ In (lit "cash") (header_names raw)) ->
  Repo.readLivePnlCsv E num NaN parse_numeric resolveRepoPath type_error readFile file
  = readLivePnl readFile file.
Proof.
  intros Hnames. unfold Repo.readLivePnlCsv, Csv.readLivePnl.
  destruct (readFile (resolveRepoPath file)) as [raw|e]; [|reflexivity].
  specialize (Hnames raw eq_refl). unfold header_names in Hnames.
  cbv beta iota delta [bind].
  destruct (split_lines (trim raw)) as [|header rows] eqn:Hlines.
  { exfalso. exact (split_lines_nonempty _ Hlines). }
  cbv beta iota delta [destructure bind try_catch].
  destruct Hnames as [Hequity Hcash].
  destruct header as [|c h].
  - rewrite (blank_first_line raw rows Hlines). reflexivity.
  - cbv beta iota delta [falsy nullish].
    apply f_equal, map_ext. intros row.
    unfold point_of_record, pnl_of_record.
    rewrite !CsvFacts.row_record_lookup. unfold cell.
    destruct (column_from_named _ 0 _ Hequity) as [i ->].
    destruct (column_from_named _ 0 _ Hcash) as [j ->].
    reflexivity.
Qed.

Lemma trade_of_record_by_position (row : str) :
  trade_of_record num NaN parse_numeric (row_record (split_on comma trades_header) row)
  = trade_by_position num NaN parse_numeric row.
Proof.
  unfold trade_of_record, trade_by_position.
  rewrite !CsvFacts.row_record_lookup. unfold cell.
  replace (column_from (split_on comma trades_header) 0 (lit "date"))
    with (Some 0) by (vm_compute; reflexivity).
  replace (column_from (split_on comma trades_header) 0 (lit "symbol"))
    with (Some 1) by (vm_compute; reflexivity).
  replace (column_from (split_on comma trades_header) 0 (lit "quantity"))
    with (Some 2) by (vm_compute; reflexivity).
  replace (column_from (split_on comma trades_header) 0 (lit "price"))
    with (Some 3) by (vm_compute; reflexivity).
  replace (column_from (split_on comma trades_header) 0 (lit "notional"))
    with (Some 4) by (vm_compute; reflexivity).
  replace (column_from (split_on comma trades_header) 0 (lit "sleeve"))
    with (Some 5) by (vm_compute; reflexivity).
  reflexivity.
Qed.

Lemma lines_of_trades_csv (eol : str) (rows : list str) (tail : str) :
  is_line_break eol ->
  Forall (data_row 6) rows ->
  forallb is_ws tail = true ->
  split_lines (trim (csv_text eol trades_header rows tail))
  = trades_header :: map_last trimEnd rows.
Proof.
  intros Heol Hrows Htail. unfold trim, csv_text.
  assert (Hstart : forall rest,
             trimStart (trades_header ++ rest) = trades_header ++ rest)
    by reflexivity.
  change (join_lines eol (trades_header :: rows))
    with (trades_header ++ concat (map (fun r => eol ++ r) rows)).
  rewrite <- app_assoc, Hstart, app_assoc.
  change (trades_header ++ concat (map (fun r => eol ++ r) rows))
    with (join_lines eol (trades_header :: rows)).
  rewrite trimEnd_join; [| |exact Htail].
  - assert (Hlast : map_last trimEnd (trades_header :: rows)
                    = trades_header :: map_last trimEnd rows).
    { destruct rows; reflexivity. }
    rewrite Hlast. apply split_lines_join; [exact Heol|].
    constructor; [reflexivity|].
    apply map_last_Forall; [intros x; apply forallb_trimEnd|].
    eapply Forall_impl; [exact Hrows|]. intros r [Hr _]. exact Hr.
  - constructor; [reflexivity|].
    eapply Forall_impl; [exact Hrows|]. intros r [_ Hr]. cbv beta.
    apply two_fields_not_blank. lia.
Qed.

(** X5.  On a trade log made of the header
    date,symbol,quantity,price,notional,sleeve and rows of at least six
    fields, [readTradesCsv] returns one record per row, in order, read by
    position; only the last row is read without the white space at its end. *)
Theorem readTradesCsv_reads_rows (type_error : E)
    (readFile : str -> Completion E str) (file eol : str) (rows : list str)
    (tail : str) :
  is_line_break eol ->
  Forall (data_row 6) rows ->
  forallb is_ws tail = true ->
  readFile (resolveRepoPath file) = Return (csv_text eol trades_header rows tail) ->
  readTradesCsv type_error readFile file
  = Return (map (trade_by_position num NaN parse_numeric) (map_last trimEnd rows)).
Proof.
  intros Heol Hrows Htail Hread. unfold Csv.readTradesCsv. rewrite Hread.
  cbv beta iota delta [bind].
  rewrite (lines_of_trades_csv eol rows tail Heol Hrows Htail).
  cbv beta iota delta [destructure bind try_catch].
  apply f_equal, map_ext. intros row. apply trade_of_record_by_position.
Qed.

End Summary.

Lemma readLivePnlCsv_agrees_witness :
  Repo.readLivePnlCsv unit nat 0 (@length ascii) (fun p => p) tt
    (fun _ => Return (csv_text [LF] live_pnl_header sample_rows [LF]))
    (lit "reports/live_pnl.csv")
  = Csv.readLivePnl unit nat 0 (@length ascii) (fun p => p)
      (fun _ => Return (csv_text [LF] live_pnl_header sample_rows [LF]))
      (lit "reports/live_pnl.csv").
Proof.
  apply (readLivePnlCsv_agrees unit nat 0 (@length ascii) (fun p => p) tt
           (fun _ => Return (csv_text [LF] live_pnl_header sample_rows [LF]))
           (lit "reports/live_pnl.csv")).
  intros raw Hraw. inversion Hraw; subst raw.
  split; vm_compute; tauto.
Defined.

Lemma readLivePnl_reads_every_line_witness :
  exists header rows,
    split_lines (trim reordered_pnl) = header :: rows /\
    Csv.readLivePnl unit nat 0 (@length ascii) (fun p => p)
      (fun _ => Return reordered_pnl) (lit "reports/live_pnl.csv")
    = Return (map (pnl_by_column nat 0 (@length ascii) (split_on comma header))
                  rows).
Proof.
  apply (readLivePnl_reads_every_line unit nat 0 (@length ascii) (fun p => p)
           (fun _ => Return reordered_pnl) (lit "reports/live_pnl.csv")
           reordered_pnl).
  reflexivity.
Defined.

Lemma latestLivePnl_on_csv_witness :
  Repo.latestLivePnl unit nat 0 (@length ascii) (fun p => p)
    (fun _ => Return (csv_text [LF] live_pnl_header
                        ([lit "2024-03-01T14:30:00,100250.5,40000"]
                         ++ [lit "2024-03-01T14:31:00,100310.25,39500 "]) [LF]))
  = Return (JsValue (pnl_row nat 0 (@length ascii)
                       (lit "2024-03-01T14:31:00,100310.25,39500 "))).
Proof.
  apply (latestLivePnl_on_csv unit nat 0 (@length ascii) (fun p => p)
           (fun _ => Return (csv_text [LF] live_pnl_header
                               ([lit "2024-03-01T14:30:00,100250.5,40000"]
                                ++ [lit "2024-03-01T14:31:00,100310.25,39500 "])
                               [LF]))
           [LF] [lit "2024-03-01T14:30:00,100250.5,40000"]
           (lit "2024-03-01T14:31:00,100310.25,39500 ") [LF]).
  - left. reflexivity.
  - unfold data_row. repeat constructor; vm_compute; lia.
  - reflexivity.
  - reflexivity.
Defined.

Lemma readers_ignore_padding_witness :
  Csv.readTradesCsv unit nat 0 (@length ascii) (fun p => p) tt
    (fun _ => Return ([LF] ++ sample_trades ++ lit "  ")) (lit "reports/trades.csv")
  = Csv.readTradesCsv unit nat 0 (@length ascii) (fun p => p) tt
      (fun _ => Return sample_trades) (lit "reports/trades.csv") /\
  Csv.readLivePnl unit nat 0 (@length ascii) (fun p => p)
    (fun _ => Return ([LF] ++ sample_trades ++ lit "  ")) (lit "reports/trades.csv")
  = Csv.readLivePnl unit nat 0 (@length ascii) (fun p => p)
      (fun _ => Return sample_trades) (lit "reports/trades.csv").
Proof.
  apply (readers_ignore_padding unit nat 0 (@length ascii) (fun p => p) tt
           (fun _ => Return sample_trades)
           (fun _ => Return ([LF] ++ sample_trades ++ lit "  "))
           (lit "reports/trades.csv") sample_trades [LF] (lit "  "));
    reflexivity.
Defined.

Lemma readTradesCsv_reads_rows_witness :
  Csv.readTradesCsv unit nat 0 (@length ascii) (fun p => p) tt
    (fun _ => Return (csv_text [LF] trades_header sample_trade_rows [LF]))
    (lit "reports/trades.csv")
  = Return (map (trade_by_position nat 0 (@length ascii))
                (map_last trimEnd sample_trade_rows)).
Proof.
  apply (readTradesCsv_reads_rows unit nat 0 (@length ascii) (fun p => p) tt
           (fun _ => Return (csv_text [LF] trades_header sample_trade_rows [LF]))
           (lit "reports/trades.csv") [LF] sample_trade_rows [LF]).
  - left. reflexivity.
  - unfold sample_trade_rows, data_row. repeat constructor; vm_compute; lia.
  - reflexivity.
  - reflexivity.
Defined.

(** X7.  The trade ledger shows the last twenty trades (all when there are
    fewer), most recent first. *)
Theorem TradeLedger_rows_newest_first {A} (trades : list A) :
  length (TradeLedger_rows trades) = Nat.min 20 (length trades) /\
  forall i, i < Nat.min 20 (length trades) ->
    TradeLedger_rows trades !! i = trades !! (length trades - 1 - i).
Proof.
  unfold TradeLedger_rows. split.
  - rewrite length_rev. apply slice_last_length.
  - intros i Hi. apply recent_lookup, Hi.
Qed.

End RepoFacts.

Module AlpacaApiFacts.
Import JsString Js Next Alpaca AlpacaApi.
Local Set Default Proof Using "Type".

Lemma falsy_missing (env : gmap str str) (name : str) :
  falsy (env !! name) = true <-> missing env name.
Proof.
  unfold missing. destruct (env !! name) as [[|c r]|]; simpl; split;
    intros H; try tauto; try discriminate; destruct H; discriminate.
Qed.

Lemma getAlpacaClient_cases (env : gmap str str) :
  (getAlpacaClient env = None <-> credentials_missing env) /\
  (forall client, getAlpacaClient env = Some client ->
     env !! lit "ALPACA_API_KEY_ID" = Some (keyId client) /\
     env !! lit "ALPACA_API_SECRET_KEY" = Some (secretKey client) /\
     keyId client <> [] /\ secretKey client <> [] /\
     (missing env (lit "ALPACA_BASE_URL") ->
      baseUrl client = lit "https://paper-api.alpaca.markets" /\
      paper client = true)).
Proof.
  unfold credentials_missing. rewrite <- !falsy_missing.
  unfold getAlpacaClient.
  destruct (env !! lit "ALPACA_API_KEY_ID") as [[|kc kr]|] eqn:Hk;
    destruct (env !! lit "ALPACA_API_SECRET_KEY") as [[|sc sr]|] eqn:Hs;
    simpl; (split; [split; intros H; try tauto; try discriminate;
                    destruct H; discriminate|]);
    intros client Hc; try discriminate.
  inversion Hc; subst; simpl. repeat split; try discriminate.
  - destruct H as [H|H]; rewrite H; reflexivity.
  - destruct H as [H|H]; rewrite H; reflexivity.
Qed.

(** X8.  [getAlpacaClient] returns null exactly when a credential is unset
    or empty.  The client it builds otherwise carries both credentials as
    set, and with ALPACA_BASE_URL unset or empty it targets the paper
    endpoint with the paper flag on. *)
Theorem getAlpacaClient_null_iff (env : gmap str str) :
  (getAlpacaClient env = None <-> credentials_missing env) /\
  (forall client, getAlpacaClient env = Some client ->
     env !! lit "ALPACA_API_KEY_ID" = Some (keyId client) /\
     env !! lit "ALPACA_API_SECRET_KEY" = Some (secretKey client) /\
     keyId client <> [] /\ secretKey client <> [] /\
     (missing env (lit "ALPACA_BASE_URL") ->
      baseUrl client = lit "https://paper-api.alpaca.markets" /\
      paper client = true)).
Proof. exact (getAlpacaClient_cases env). Qed.

Section Routes.

Variable E : Type.
Variables Account Position Order Clock History : Type.

Abbreviation Sdk := (Alpaca.Sdk E Account Position Order Clock).
Abbreviation fetchAlpacaSnapshot :=
  (Alpaca.fetchAlpacaSnapshot E Account Position Order Clock).

Lemma snapshot_without_client (env : gmap str str) (sdk : Sdk) :
  getAlpacaClient env = None ->
  fetchAlpacaSnapshot env sdk = Return (empty_snapshot _ _ _ _).
Proof. intros H. unfold Alpaca.fetchAlpacaSnapshot. rewrite H. reflexivity. Qed.

(** X9.  The account route never throws.  It answers 503 exactly when a
    credential is unset or empty or the account call fails, and the account
    itself otherwise. *)
Theorem account_route_unavailable_iff (env : gmap str str) (sdk : Sdk) :
  exists resp,
    account_GET E Account Position Order Clock env sdk = Return resp /\
    (status resp = 503 <->
     credentials_missing env \/
     exists client e, getAlpacaClient env = Some client /\
                      getAccount _ _ _ _ _ sdk client = Throw e) /\
    (forall client a, getAlpacaClient env = Some client ->
                      getAccount _ _ _ _ _ sdk client = Return a ->
                      resp = json a).
Proof.
  unfold account_GET.
  destruct (getAlpacaClient env) as [client|] eqn:Hc.
  - rewrite (AlpacaFacts.snapshot_with_client _ _ _ _ _ env sdk client Hc).
    cbv beta iota delta [bind snapshot_of account].
    destruct (getAccount _ _ _ _ _ sdk client) as [a|e] eqn:Ha; simpl.
    + eexists; split; [reflexivity|]. split.
      * simpl. split; [discriminate|].
        intros [Hm|(c' & e & Hc' & He)].
        -- apply (proj1 (getAlpacaClient_cases env)) in Hm. congruence.
        -- congruence.
      * intros c' a' Hc' Ha'. congruence.
    + eexists; split; [reflexivity|]. split.
      * simpl. split; [|reflexivity]. intros _. right. eauto.
      * intros c' a' Hc' Ha'. congruence.
  - rewrite (snapshot_without_client env sdk Hc). simpl.
    eexists; split; [reflexivity|]. split.
    + simpl. split; [|reflexivity]. intros _. left.
      apply (proj1 (getAlpacaClient_cases env)), Hc.
    + intros c' a' Hc'. discriminate.
Qed.

(** X10.  The clock route never throws.  It answers 503 exactly when a
    credential is unset or empty or the clock call fails, and the clock
    itself otherwise. *)
Theorem clock_route_unavailable_iff (env : gmap str str) (sdk : Sdk) :
  exists resp,
    clock_GET E Account Position Order Clock env sdk = Return resp /\
    (status resp = 503 <->
     credentials_missing env \/
     exists client e, getAlpacaClient env = Some client /\
                      getClock _ _ _ _ _ sdk client = Throw e) /\
    (forall client c, getAlpacaClient env = Some client ->
                      getClock _ _ _ _ _ sdk client = Return c ->
                      resp = json c).
Proof.
  unfold clock_GET.
  destruct (getAlpacaClient env) as [client|] eqn:Hc.
  - rewrite (AlpacaFacts.snapshot_with_client _ _ _ _ _ env sdk client Hc).
    cbv beta iota delta [bind snapshot_of clock].
    destruct (getClock _ _ _ _ _ sdk client) as [c|e] eqn:Ha; simpl.
    + eexists; split; [reflexivity|]. split.
      * simpl. split; [discriminate|].
        intros [Hm|(c' & e & Hc' & He)].
        -- apply (proj1 (getAlpacaClient_cases env)) in Hm. congruence.
        -- congruence.
      * intros c' a' Hc' Ha'. congruence.
    + eexists; split; [reflexivity|]. split.
      * simpl. split; [|reflexivity]. intros _. right. eauto.
      * intros c' a' Hc' Ha'. congruence.
  - rewrite (snapshot_without_client env sdk Hc). simpl.
    eexists; split; [reflexivity|]. split.
    + simpl. split; [|reflexivity]. intros _. left.
      apply (proj1 (getAlpacaClient_cases env)), Hc.
    + intros c' a' Hc'. discriminate.
Qed.

Lemma scope_is_history (searchParams : list (str * str)) :
  bool_decide (nullish (get searchParams (lit "scope")) (lit "open") = lit "history")
  = bool_decide (get searchParams (lit "scope") = Some (lit "history")).
Proof.
  destruct (get searchParams (lit "scope")) as [s|].
  - apply bool_decide_ext. simpl. split; congruence.
  - vm_compute. reflexivity.
Qed.

(** X11.  The orders and positions routes always answer 200 with a list:
    the empty list without credentials; with a client, the recent orders
    (status all, limit 50) exactly when the scope parameter is "history", the
    open orders for any other or no scope, and the positions, each replaced
    by the empty list when its call fails. *)
Theorem list_routes_never_fail (env : gmap str str) (sdk : Sdk)
    (searchParams : list (str * str)) :
  exists orders held,
    orders_GET E Account Position Order Clock env sdk searchParams
    = Return (json orders) /\
    positions_GET E Account Position Order Clock env sdk = Return (json held) /\
    (credentials_missing env -> orders = [] /\ held = []) /\
    (forall client, getAlpacaClient env = Some client ->
       orders = value_or E (fun x => x) []
                  (getOrders _ _ _ _ _ sdk client
                     (if bool_decide (get searchParams (lit "scope")
                                      = Some (lit "history"))
                      then all_orders_query 50 else open_orders_query)) /\
       held = value_or E (fun x => x) [] (getPositions _ _ _ _ _ sdk client)).
Proof.
  unfold orders_GET, positions_GET, fetchRecentOrders.
  rewrite scope_is_history.
  destruct (getAlpacaClient env) as [client|] eqn:Hc.
  - rewrite (AlpacaFacts.snapshot_with_client _ _ _ _ _ env sdk client Hc).
    cbv beta iota delta [bind snapshot_of openOrders positions].
    destruct (bool_decide (get searchParams (lit "scope") = Some (lit "history"))).
    + destruct (getOrders _ _ _ _ _ sdk client _) as [os|e] eqn:Ho;
        simpl; do 2 eexists; (split; [reflexivity|]); (split; [reflexivity|]);
        (split; [intros Hm; apply (proj1 (getAlpacaClient_cases env)) in Hm;
                 congruence|]);
        intros c' Hc'; inversion Hc'; subst c';
        unfold all_orders_query; rewrite Ho; split; reflexivity.
    + do 2 eexists. split; [reflexivity|]. split; [reflexivity|].
      split; [intros Hm; apply (proj1 (getAlpacaClient_cases env)) in Hm;
              congruence|].
      intros c' Hc'. inversion Hc'; subst c'. split; reflexivity.
  - rewrite (snapshot_without_client env sdk Hc).
    destruct (bool_decide (get searchParams (lit "scope") = Some (lit "history")));
      simpl; do 2 eexists; (split; [reflexivity|]); (split; [reflexivity|]);
      (split; [intros _; split; reflexivity|]); intros c' Hc'; discriminate.
Qed.

(** X12.  The portfolio route asks for one month of history at the
    requested timeframe, "1D" when the parameter is absent; it answers 503
    exactly when a credential is unset or empty or that call fails, and the
    history otherwise. *)
Theorem portfolio_route_unavailable_iff (env : gmap str str)
    (getPortfolioHistory : AlpacaConfig -> HistoryQuery -> Completion E History)
    (searchParams : list (str * str)) :
  let query :=
    {| period := lit "1M";
       timeframe := nullish (get searchParams (lit "timeframe")) (lit "1D");
       extended_hours := false |} in
  exists resp,
    portfolio_GET E History env getPortfolioHistory searchParams = Return resp /\
    (status resp = 503 <->
     credentials_missing env \/
     exists client e, getAlpacaClient env = Some client /\
                      getPortfolioHistory client query = Throw e) /\
    (forall client h, getAlpacaClient env = Some client ->
                      getPortfolioHistory client query = Return h ->
                      resp = json h).
Proof.
  intros query. unfold portfolio_GET, fetchPortfolioHistory.
  destruct (getAlpacaClient env) as [client|] eqn:Hc.
  - fold query.
    destruct (getPortfolioHistory client query) as [h|e] eqn:Hh; simpl.
    + eexists; split; [reflexivity|]. split.
      * simpl. split; [discriminate|].
        intros [Hm|(c' & e & Hc' & He)].
        -- apply (proj1 (getAlpacaClient_cases env)) in Hm. congruence.
        -- congruence.
      * intros c' h' Hc' Hh'. congruence.
    + eexists; split; [reflexivity|]. split.
      * simpl. split; [|reflexivity]. intros _. right. eauto.
      * intros c' h' Hc' Hh'. congruence.
  - simpl. eexists; split; [reflexivity|]. split.
    + simpl. split; [|reflexivity]. intros _. left.
      apply (proj1 (getAlpacaClient_cases env)), Hc.
    + intros c' h' Hc'. discriminate.
Qed.

End Routes.

End AlpacaApiFacts.

Module MarketFacts.
Import JsString Js JsArray Watchlist Market JsStringFacts.
Local Set Default Proof Using "Type".

Lemma split_on_app_sep (sep : ascii) (x y : str) :
  no_char sep x = true ->
  split_on sep (x ++ sep :: y) = x :: split_on sep y.
Proof.
  unfold no_char. induction x as [|c x IH]; simpl.
  - intros _. assert (H : ascii_eqb sep sep = true) by (apply ascii_eqb_eq; reflexivity).
    rewrite H. reflexivity.
  - intros H. apply andb_true_iff in H as [Hc Hx].
    apply negb_true_iff in Hc. rewrite Hc, (IH Hx). reflexivity.
Qed.

(** [join] then [split] gives the array back, the empty array apart. *)
Lemma split_on_join (x : str) (rest : list str) :
  Forall (fun s => no_char comma s = true) (x :: rest) ->
  split_on comma (join [comma] (x :: rest)) = x :: rest.
Proof.
  revert x. induction rest as [|y rest IH]; intros x Hall.
  - simpl. apply split_on_no_sep. inversion Hall; assumption.
  - inversion Hall as [|? ? Hx Hrest]; subst.
    change (join [comma] (x :: y :: rest))
      with (x ++ comma :: join [comma] (y :: rest)).
    rewrite (split_on_app_sep comma x _ Hx), (IH y Hrest). reflexivity.
Qed.

Lemma split_on_fields_no_sep (sep : ascii) (s : str) :
  Forall (fun f => no_char sep f = true) (split_on sep s).
Proof.
  induction s as [|c r IH]; simpl; [repeat constructor|].
  destruct (ascii_eqb c sep) eqn:Hc.
  - constructor; [reflexivity | exact IH].
  - destruct (split_on sep r) as [|f fs]; simpl.
    + repeat constructor. unfold no_char. simpl. rewrite Hc. reflexivity.
    + inversion IH as [|? ? Hf Hfs]; subst. constructor; [|exact Hfs].
      unfold no_char in *. simpl. rewrite Hc, Hf. reflexivity.
Qed.

Lemma forallb_trimStart (P : ascii -> bool) (s : str) :
  forallb P s = true -> forallb P (trimStart s) = true.
Proof.
  induction s as [|c r IH]; [reflexivity|].
  intros H. simpl. destruct (is_ws c); [|exact H].
  simpl in H. apply andb_true_iff in H as [_ Hr]. exact (IH Hr).
Qed.

Lemma trimStart_idempotent (s : str) : trimStart (trimStart s) = trimStart s.
Proof.
  induction s as [|c r IH]; [reflexivity|].
  destruct (is_ws c) eqn:Hc.
  - rewrite (trimStart_ws c r Hc). exact IH.
  - rewrite (trimStart_non_ws c r Hc). apply trimStart_non_ws, Hc.
Qed.

Lemma trim_idempotent (s : str) : trim (trim s) = trim s.
Proof.
  unfold trim. rewrite trimStart_trimEnd, trimStart_idempotent.
  apply trimEnd_idempotent.
Qed.

Section Routes.

Variable E : Type.
Variable Quote : Type.
Variable yahoo_quote : str -> Completion E Quote.
Variable HistoricalRow : Type.
Variable yahoo_historical :
  str -> HistoricalQuery -> Completion E (option (list HistoricalRow)).

Lemma parse_symbols_are_clean (symbolsParam : str) :
  Forall clean_symbol (parse_symbols symbolsParam).
Proof.
  unfold parse_symbols. apply Forall_forall. intros s Hs.
  apply list_elem_of_In, filter_In in Hs as [Hs Hne].
  apply in_map_iff in Hs as (f & <- & Hf).
  pose proof (split_on_fields_no_sep comma symbolsParam) as Hfields.
  rewrite Forall_forall in Hfields.
  specialize (Hfields f (proj2 (list_elem_of_In _ _) Hf)). cbv beta in Hfields.
  unfold clean_symbol. split; [|split].
  - intros H. rewrite H in Hne. discriminate.
  - unfold trim, no_char. apply forallb_trimEnd, forallb_trimStart, Hfields.
  - apply trim_idempotent.
Qed.

(** X13.  Every symbol the watchlist route asks a quote for is non-empty,
    holds no comma and has no white space at either end. *)
Theorem parse_symbols_clean (symbolsParam : str) :
  Forall clean_symbol (parse_symbols symbolsParam).
Proof. exact (parse_symbols_are_clean symbolsParam). Qed.

Lemma parse_symbols_join (symbols : list str) :
  Forall clean_symbol symbols ->
  parse_symbols (watchlist_query symbols) = symbols.
Proof.
  intros Hclean. unfold parse_symbols, watchlist_query.
  destruct symbols as [|x rest]; [reflexivity|].
  rewrite split_on_join
    by (eapply Forall_impl; [exact Hclean|]; intros s (_ & H & _); exact H).
  induction Hclean as [|s l (Hne & _ & Htrim) Hl IH]; [reflexivity|].
  simpl. rewrite Htrim. destruct s as [|c s]; [congruence|].
  simpl. rewrite IH. reflexivity.
Qed.

(** X14.  Joining the parsed symbols with commas and parsing again gives the
    same symbols: the route normalises its parameter. *)
Theorem parse_symbols_round_trip (symbolsParam : str) :
  parse_symbols (watchlist_query (parse_symbols symbolsParam))
  = parse_symbols symbolsParam.
Proof. apply parse_symbols_join, parse_symbols_are_clean. Qed.

Lemma watchlist_query_nonempty (x : str) (rest : list str) :
  x <> [] -> exists c r, watchlist_query (x :: rest) = c :: r.
Proof.
  intros Hx. destruct x as [|c x]; [congruence|].
  unfold watchlist_query. destruct rest; simpl; eauto.
Qed.

(** X15.  Polled with the query string that the watchlist component builds
    from a non-empty list of clean symbols, the route answers 200 with one
    entry per symbol of the component, in the same order. *)
Theorem watchlist_poll_returns_symbols (symbols : list str) :
  symbols <> [] ->
  Forall clean_symbol symbols ->
  Watchlist.GET E Quote yahoo_quote [(lit "symbols", watchlist_query symbols)]
  = Return {| status := 200;
              body := QuotesBody Quote
                (map (fun s => (s, quote_or_null E Quote yahoo_quote s)) symbols) |}.
Proof.
  intros Hne Hclean.
  destruct symbols as [|x rest]; [congruence|].
  assert (Hx : x <> []) by (inversion Hclean as [|? ? (H & _) _]; exact H).
  destruct (watchlist_query_nonempty x rest Hx) as (c & r & Hq).
  rewrite (WatchlistFacts.GET_with_symbols E Quote yahoo_quote _ c r)
    by (simpl; rewrite Hq; reflexivity).
  rewrite <- Hq, (parse_symbols_join (x :: rest) Hclean). reflexivity.
Qed.

(** X18.  The history route answers 400 without a symbol; with one it
    answers 200 with the rows Yahoo returns for the given periods, interval
    and range, where an absent interval is "1d" and an absent range is
    "1mo", and with the empty list when the request fails or has no result. *)
Theorem history_route_defaults (searchParams : list (str * str)) :
  match Next.get searchParams (lit "symbol") with
  | Some (c :: r) =>
      history_GET E HistoricalRow yahoo_historical searchParams
      = Return (Next.json
          (rows_or_empty E HistoricalRow
             (yahoo_historical (c :: r)
                {| period1 := Next.get searchParams (lit "period1");
                   period2 := Next.get searchParams (lit "period2");
                   interval := nullish (Next.get searchParams (lit "interval"))
                                       (lit "1d");
                   range := nullish (Next.get searchParams (lit "range"))
                                    (lit "1mo") |})))
  | _ =>
      history_GET E HistoricalRow yahoo_historical searchParams
      = Return (Next.json_error (lit "symbol is required") 400)
  end.
Proof.
  unfold history_GET, fetchHistorical.
  destruct (Next.get searchParams (lit "symbol")) as [[|c r]|]; try reflexivity.
  cbv beta iota delta [falsy nullish].
  destruct (yahoo_historical (c :: r) _) as [[rows|]|e]; reflexivity.
Qed.

End Routes.

Section Quotes.

Variable E : Type.
Variable Quote : Type.
Variable yahoo_quote : str -> Completion E (option Quote).

(** X16.  Over a payload of the watchlist route, the quote shown for the
    selected symbol is the quote object fetched for it; it is null exactly
    when the symbol is not in the payload, its quote resolved to a nullish
    value, or the fetch failed. *)
Theorem selectedQuote_of_payload (symbols : list str) (selected : str) :
  let payload :=
    map (fun s => (s, quote_or_null E (option Quote) yahoo_quote s)) symbols in
  (forall q, In selected symbols ->
             yahoo_quote selected = Return (Some q) ->
             selectedQuote Quote payload selected = QuoteValue Quote q) /\
  (selectedQuote Quote payload selected = QuoteNull Quote <->
   ~ In selected symbols \/
   yahoo_quote selected = Return None \/
   exists e, yahoo_quote selected = Throw e).
Proof.
  cbv zeta. unfold selectedQuote.
  induction symbols as [|s symbols [IHvalue IHnull]].
  - split; [intros q []|]. split; [intros _; left; intros []|reflexivity].
  - simpl. destruct (bool_decide (s = selected)) eqn:Hs.
    + apply bool_decide_eq_true in Hs. subst s. unfold quote_or_null.
      destruct (yahoo_quote selected) as [[q|]|e] eqn:Hq.
      * split; [intros q' _ Hq'; congruence|].
        split; [discriminate|].
        intros [H|[H|[e H]]]; [exfalso; apply H; left; reflexivity| |];
          discriminate.
      * split; [intros q' _ Hq'; discriminate|].
        split; [intros _; right; left; reflexivity | reflexivity].
      * split; [intros q' _ Hq'; discriminate|].
        split; [intros _; right; right; eauto | reflexivity].
    + apply bool_decide_eq_false in Hs. split.
      * intros q [H|H] Hq; [congruence | exact (IHvalue q H Hq)].
      * rewrite IHnull. split.
        -- intros [H|H]; [left; intros [H'|H']; [congruence | exact (H H')]
                         | right; exact H].
        -- intros [H|H]; [left; intros H'; apply H; right; exact H'
                         | right; exact H].
Qed.

(** X17.  The quote route never throws: 400 exactly when the symbol
    parameter is absent or empty, 503 exactly when a symbol is given and its
    quote resolves to a nullish value or cannot be fetched, and the quote
    object itself otherwise. *)
Theorem quote_route_status (searchParams : list (str * str)) :
  exists resp,
    quote_GET E Quote yahoo_quote searchParams = Return resp /\
    (Next.status resp = 400 <->
     Next.get searchParams (lit "symbol") = None \/
     Next.get searchParams (lit "symbol") = Some []) /\
    (Next.status resp = 503 <->
     exists c r, Next.get searchParams (lit "symbol") = Some (c :: r) /\
                 (yahoo_quote (c :: r) = Return None \/
                  exists e, yahoo_quote (c :: r) = Throw e)) /\
    (forall c r q, Next.get searchParams (lit "symbol") = Some (c :: r) ->
                   yahoo_quote (c :: r) = Return (Some q) ->
                   resp = Next.json q).
Proof.
  unfold quote_GET.
  destruct (Next.get searchParams (lit "symbol")) as [[|c r]|] eqn:Hget; simpl.
  - eexists; split; [reflexivity|]. simpl. split; [tauto|]. split.
    + split; [discriminate|]. intros (c & r & H & _). discriminate.
    + intros c r q H. discriminate.
  - rewrite WatchlistFacts.fetchQuote_never_rejects. unfold quote_or_null.
    destruct (yahoo_quote (c :: r)) as [[q|]|e] eqn:Hq; simpl.
    + eexists; split; [reflexivity|]. simpl. split.
      * split; [discriminate|]. intros [H|H]; discriminate.
      * split.
        -- split; [discriminate|]. intros (c' & r' & H & Hfail).
           inversion H; subst. destruct Hfail as [H'|[e H']]; congruence.
        -- intros c' r' q' H Hq'. inversion H; subst. congruence.
    + eexists; split; [reflexivity|]. simpl. split.
      * split; [discriminate|]. intros [H|H]; discriminate.
      * split.
        -- split; [|reflexivity]. intros _. exists c, r.
           split; [reflexivity | left; exact Hq].
        -- intros c' r' q' H Hq'. inversion H; subst. congruence.
    + eexists; split; [reflexivity|]. simpl. split.
      * split; [discriminate|]. intros [H|H]; discriminate.
      * split.
        -- split; [|reflexivity]. intros _. exists c, r.
           split; [reflexivity | right; eauto].
        -- intros c' r' q' H Hq'. inversion H; subst. congruence.
  - eexists; split; [reflexivity|]. simpl. split; [tauto|]. split.
    + split; [discriminate|]. intros (c & r & H & _). discriminate.
    + intros c r q H. discriminate.
Qed.

End Quotes.

Lemma watchlist_poll_returns_symbols_witness :
  Watchlist.GET unit unit (fun _ => Throw tt)
    [(lit "symbols", watchlist_query WATCH_SYMBOLS)]
  = Return {| status := 200;
              body := QuotesBody unit
                (map (fun s => (s, quote_or_null unit unit (fun _ => Throw tt) s))
                     WATCH_SYMBOLS) |}.
Proof.
  apply (watchlist_poll_returns_symbols unit unit (fun _ => Throw tt) WATCH_SYMBOLS).
  - discriminate.
  - unfold WATCH_SYMBOLS, clean_symbol.
    repeat constructor; try discriminate; vm_compute; reflexivity.
Defined.

End MarketFacts.

Module TradingDataFacts.
Import JsString Js JsArray TradingData.
Local Set Default Proof Using "Type".

(** A sequence over an indexed map returns one value per element, or throws
    what one of the elements threw. *)
Lemma sequence_imap_cases {E A B} (f : nat -> A -> Completion E B) (l : list A) :
  (exists ys, sequence (imap f l) = Return ys /\ length ys = length l) \/
  (exists e x, In x l /\ (exists i, f i x = Throw e) /\
               sequence (imap f l) = Throw e).
Proof.
  revert f. induction l as [|x l IH]; intros f.
  - left. exists []. split; reflexivity.
  - simpl. destruct (f 0 x) as [y|e] eqn:Hx.
    + destruct (IH (f ∘ S)) as [(ys & Hys & Hlen)|(e & z & Hz & [i Hi] & Hthrow)].
      * left. exists (y :: ys). rewrite Hys. simpl. split; [reflexivity|].
        rewrite Hlen. reflexivity.
      * right. exists e, z. split; [right; exact Hz|]. split; [eauto|].
        rewrite Hthrow. reflexivity.
    + right. exists e, x. split; [left; reflexivity|]. split; [eauto|].
      reflexivity.
Qed.

Section Load.

Variable E : Type.
Variable num : Type.
Variable NaN : num.
Variable zero : num.
Variable parse_numeric : str -> num.
Variable resolveRepoPath : str -> str.
Variables Account Position Order Clock : Type.
Variable Quote : Type.
Variable yahoo_quote : str -> Completion E Quote.
Variable iso_of_seconds : num -> Completion E str.

Abbreviation History := (PortfolioHistory num).
Abbreviation loadTradingData :=
  (TradingData.loadTradingData E num NaN zero parse_numeric resolveRepoPath
     Account Position Order Clock Quote yahoo_quote iso_of_seconds).
Abbreviation watch_quotes :=
  (map (fun s => (s, Watchlist.quote_or_null E Quote yahoo_quote s))
       Market.WATCH_SYMBOLS).

Lemma fetchRecentOrders_returns (env : gmap str str)
    (sdk : Alpaca.Sdk E Account Position Order Clock) (limit : nat) :
  exists orders,
    AlpacaApi.fetchRecentOrders E Account Position Order Clock env sdk limit
    = Return orders /\
    (Alpaca.getAlpacaClient env = None -> orders = []).
Proof.
  unfold AlpacaApi.fetchRecentOrders.
  destruct (Alpaca.getAlpacaClient env) as [client|]; [|eauto].
  destruct (Alpaca.getOrders _ _ _ _ _ sdk client _); simpl;
    eexists; (split; [reflexivity|discriminate]).
Qed.

Lemma fetchPortfolioHistory_returns (env : gmap str str)
    (getPortfolioHistory :
       Alpaca.AlpacaConfig -> AlpacaApi.HistoryQuery -> Completion E History)
    (timeframe : str) :
  exists history,
    AlpacaApi.fetchPortfolioHistory E History env getPortfolioHistory timeframe
    = Return history /\
    (Alpaca.getAlpacaClient env = None -> history = None).
Proof.
  unfold AlpacaApi.fetchPortfolioHistory.
  destruct (Alpaca.getAlpacaClient env) as [client|]; [|eauto].
  destruct (getPortfolioHistory client _); simpl;
    eexists; (split; [reflexivity|discriminate]).
Qed.

Lemma snapshot_returns (env : gmap str str)
    (sdk : Alpaca.Sdk E Account Position Order Clock) :
  exists snap,
    Alpaca.fetchAlpacaSnapshot E Account Position Order Clock env sdk
    = Return snap /\
    (Alpaca.getAlpacaClient env = None -> snap = Alpaca.empty_snapshot _ _ _ _).
Proof.
  destruct (Alpaca.getAlpacaClient env) as [client|] eqn:Hc.
  - rewrite (AlpacaFacts.snapshot_with_client _ _ _ _ _ env sdk client Hc).
    eexists; split; [reflexivity|discriminate].
  - unfold Alpaca.fetchAlpacaSnapshot. rewrite Hc. eauto.
Qed.

Lemma historySeries_cases (history : option History) :
  (exists points,
      historySeries E num NaN zero iso_of_seconds history = Return points /\
      length points = length (series_timestamps num history)) \/
  (exists e ts,
      In ts (series_timestamps num history) /\
      iso_of_seconds ts = Throw e /\
      historySeries E num NaN zero iso_of_seconds history = Throw e).
Proof.
  unfold historySeries, series_timestamps.
  destruct history as [[[timestamps|] [equities|]]|];
    try (left; exists []; split; reflexivity).
  destruct (sequence_imap_cases
              (fun idx ts =>
                 let* iso := iso_of_seconds ts in
                 Return {| point_timestamp := iso;
                           point_equity := equity_at num NaN zero equities idx |})
              timestamps)
    as [(ys & Hys & Hlen)|(e & ts & Hin & [i Hi] & Hthrow)].
  - left. eauto.
  - right. exists e, ts. split; [exact Hin|]. split; [|exact Hthrow].
    destruct (iso_of_seconds ts); simpl in Hi; congruence.
Qed.

(** X19.  [loadTradingData] can only throw what formatting one of the
    history timestamps throws.  When it returns, the watchlist pairs each of
    the six watch symbols, in order, with its quote or null, and the history
    series has one point per timestamp. *)
Theorem loadTradingData_outcome (type_error : E)
    (readFile : str -> Completion E str) (env : gmap str str)
    (sdk : Alpaca.Sdk E Account Position Order Clock)
    (getPortfolioHistory :
       Alpaca.AlpacaConfig -> AlpacaApi.HistoryQuery -> Completion E History) :
  exists history,
    AlpacaApi.fetchPortfolioHistory E History env getPortfolioHistory (lit "1D")
    = Return history /\
    ((exists data,
         loadTradingData type_error readFile env sdk getPortfolioHistory
         = Return data /\
         watchlist _ _ _ _ _ _ data = watch_quotes /\
         length (portfolioHistory _ _ _ _ _ _ data)
         = length (series_timestamps num history)) \/
     (exists e ts,
         In ts (series_timestamps num history) /\
         iso_of_seconds ts = Throw e /\
         loadTradingData type_error readFile env sdk getPortfolioHistory
         = Throw e)).
Proof.
  destruct (fetchPortfolioHistory_returns env getPortfolioHistory (lit "1D"))
    as (history & Hhistory & _).
  exists history. split; [exact Hhistory|].
  destruct (snapshot_returns env sdk) as (snap & Hsnap & _).
  destruct (RepoFacts.readLivePnl_returns E num NaN parse_numeric resolveRepoPath
              readFile (lit "reports/live_pnl.csv")) as [rows Hrows].
  destruct (fetchRecentOrders_returns env sdk 50) as (orders & Horders & _).
  destruct (RepoFacts.readTradesCsv_returns E num NaN parse_numeric resolveRepoPath
              type_error readFile (lit "reports/trades.csv")) as [fills Hfills].
  unfold TradingData.loadTradingData, Alpaca.promise_all4.
  rewrite Hsnap, Hrows, Horders, Hfills. cbv beta iota delta [bind].
  rewrite Hhistory.
  rewrite (JsFacts.sequence_map_return _
             (Watchlist.quote_or_null E Quote yahoo_quote))
    by (intros; apply WatchlistFacts.fetchQuote_never_rejects).
  rewrite WatchlistFacts.pair_by_index.
  destruct (historySeries_cases history)
    as [(points & Hpoints & Hlen)|(e & ts & Hin & Hts & Hthrow)].
  - left. rewrite Hpoints. eexists. split; [reflexivity|].
    split; [reflexivity | exact Hlen].
  - right. exists e, ts. rewrite Hthrow. repeat split; assumption.
Qed.

(** X20.  Without credentials [loadTradingData] returns: the snapshot is the
    empty one, there is no order history and no history series, and the
    watchlist still holds the six watch symbols. *)
Theorem loadTradingData_without_credentials (type_error : E)
    (readFile : str -> Completion E str) (env : gmap str str)
    (sdk : Alpaca.Sdk E Account Position Order Clock)
    (getPortfolioHistory :
       Alpaca.AlpacaConfig -> AlpacaApi.HistoryQuery -> Completion E History) :
  AlpacaApi.credentials_missing env ->
  exists data,
    loadTradingData type_error readFile env sdk getPortfolioHistory = Return data /\
    snapshot _ _ _ _ _ _ data = Alpaca.empty_snapshot _ _ _ _ /\
    orderHistory _ _ _ _ _ _ data = [] /\
    portfolioHistory _ _ _ _ _ _ data = [] /\
    watchlist _ _ _ _ _ _ data = watch_quotes.
Proof.
  intros Hmissing.
  apply (proj2 (proj1 (AlpacaApiFacts.getAlpacaClient_cases env))) in Hmissing.
  destruct (fetchPortfolioHistory_returns env getPortfolioHistory (lit "1D"))
    as (history & Hhistory & Hnone).
  destruct (snapshot_returns env sdk) as (snap & Hsnap & Hempty).
  destruct (RepoFacts.readLivePnl_returns E num NaN parse_numeric resolveRepoPath
              readFile (lit "reports/live_pnl.csv")) as [rows Hrows].
  destruct (fetchRecentOrders_returns env sdk 50) as (orders & Horders & Hno).
  destruct (RepoFacts.readTradesCsv_returns E num NaN parse_numeric resolveRepoPath
              type_error readFile (lit "reports/trades.csv")) as [fills Hfills].
  unfold TradingData.loadTradingData, Alpaca.promise_all4.
  rewrite Hsnap, Hrows, Horders, Hfills. cbv beta iota delta [bind].
  rewrite Hhistory, (Hnone Hmissing).
  rewrite (JsFacts.sequence_map_return _
             (Watchlist.quote_or_null E Quote yahoo_quote))
    by (intros; apply WatchlistFacts.fetchQuote_never_rejects).
  rewrite WatchlistFacts.pair_by_index.
  cbv beta iota delta [bind historySeries].
  eexists. split; [reflexivity|].
  cbv beta iota delta [snapshot orderHistory portfolioHistory watchlist].
  rewrite (Hempty Hmissing), (Hno Hmissing). repeat split; reflexivity.
Qed.

End Load.

Lemma loadTradingData_without_credentials_witness :
  exists data,
    TradingData.loadTradingData unit nat 0 0 (@length ascii) (fun p => p)
      unit unit unit unit unit (fun _ => Throw tt) (fun _ => Throw tt)
      tt (fun _ => Throw tt) ∅ Alpaca.failing_sdk (fun _ _ => Throw tt)
    = Return data /\
    snapshot _ _ _ _ _ _ data = Alpaca.empty_snapshot _ _ _ _ /\
    orderHistory _ _ _ _ _ _ data = [] /\
    portfolioHistory _ _ _ _ _ _ data = [] /\
    watchlist _ _ _ _ _ _ data
    = map (fun s => (s, Watchlist.quote_or_null unit unit (fun _ => Throw tt) s))
          Market.WATCH_SYMBOLS.
Proof.
  apply (loadTradingData_without_credentials unit nat 0 0 (@length ascii)
           (fun p => p) unit unit unit unit unit (fun _ => Throw tt)
           (fun _ => Throw tt) tt (fun _ => Throw tt) ∅ Alpaca.failing_sdk
           (fun _ _ => Throw tt)).
  left. left. reflexivity.
Defined.

End TradingDataFacts.
